(** * collectd-docker: the per-container monitor ([collector/monitor.go])

    A shallow embedding of [NewMonitor], [Monitor.handle], [extractApp],
    [extractEnv] and [sanitizeForGraphite], together with the parts of Go's
    [strings] and [regexp] packages these functions call.

    Go strings are byte sequences; they are modelled by [string], whose
    characters are the 256 byte values.  Go's [int] is the 64-bit signed
    integer of the platforms the collector is built for. *)

From Stdlib Require Import String Ascii List ZArith Lia Bool Arith.
Import ListNotations.

Open Scope string_scope.

(* ------------------------------------------------------------------ *)
(** ** Byte-string helpers *)

Module Bytes.

(** [s[n:]] for [n <= len(s)]. *)
Fixpoint drop (n : nat) (s : string) : string :=
  match n, s with
  | O, _ => s
  | S _, EmptyString => EmptyString
  | S n', String _ t => drop n' t
  end.

(** [s[:n]] for [n <= len(s)]. *)
Fixpoint take (n : nat) (s : string) : string :=
  match n, s with
  | O, _ => EmptyString
  | S _, EmptyString => EmptyString
  | S n', String c t => String c (take n' t)
  end.

(** The byte [c] occurs in [s]. *)
Fixpoint occurs (c : ascii) (s : string) : Prop :=
  match s with
  | EmptyString => False
  | String a t => a = c \/ occurs c t
  end.

End Bytes.

(* ------------------------------------------------------------------ *)
(** ** Package [strings] *)

Module Strings.

(** [strings.HasPrefix(s, prefix)]. *)
Fixpoint HasPrefix (s pre : string) {struct pre} : bool :=
  match pre, s with
  | EmptyString, _ => true
  | String _ _, EmptyString => false
  | String p pre', String c t => Ascii.eqb c p && HasPrefix t pre'
  end.

(** [strings.TrimPrefix(s, prefix)]: [s] without the leading [prefix], or
    [s] itself when it does not start with [prefix]. *)
Definition TrimPrefix (s pre : string) : string :=
  if HasPrefix s pre then Bytes.drop (String.length pre) s else s.

(** The scan of [strings.Replace(s, old, new, n)] for a non-empty [old]:
    non-overlapping occurrences of [old] are replaced from the left;
    [left = None] is Go's [n < 0] (no limit), [Some k] leaves [k]
    replacements to do.  [skip] counts the bytes of an occurrence that was
    just replaced and still has to be stepped over. *)
Fixpoint replace_scan (old new : string) (left : option nat) (skip : nat)
    (s : string) : string :=
  match s with
  | EmptyString => EmptyString
  | String c t =>
      match skip with
      | S k => replace_scan old new left k t
      | O =>
          match left with
          | Some O => s
          | _ =>
              if HasPrefix s old then
                new ++ replace_scan old new (option_map Nat.pred left)
                         (Nat.pred (String.length old)) t
              else String c (replace_scan old new left O t)
          end
      end
  end.

(** [strings.Replace(s, old, new, n)] with [old] non-empty (the collector
    only calls it with one-byte patterns). *)
Definition Replace (s old new : string) (n : Z) : string :=
  replace_scan old new (if (n <? 0)%Z then None else Some (Z.to_nat n)) O s.

(** Byte-wise map, the closed form of replacing a one-byte pattern. *)
Fixpoint map_byte (f : ascii -> ascii) (s : string) : string :=
  match s with
  | EmptyString => EmptyString
  | String c t => String (f c) (map_byte f t)
  end.

End Strings.

(* ------------------------------------------------------------------ *)
(** ** Package [regexp]

    The fragment of Go's regular expressions that [imageNameRegex] is
    written in, with the leftmost-first (backtracking priority) semantics of
    [regexp.Regexp.FindStringSubmatch].  Matching is done byte by byte: every
    class of the fragment either contains or excludes whole multi-byte
    characters, and the bytes it singles out (line feed, [/], [:]) never
    occur inside one, so the byte-level and the character-level matches
    coincide. *)

Module Regexp.

Inductive regex : Type :=
| Any                          (* [.]  : any byte but a line feed *)
| Lit (a : ascii)              (* [a]  : the byte itself *)
| NotLit (a : ascii)           (* [[^a]]: any byte but [a], line feed included *)
| Cat (r1 r2 : regex)          (* [r1 r2] *)
| Star (r : regex)             (* [r*], greedy *)
| Cap (i : nat) (r : regex).   (* [(r)], the capturing group number [i >= 1] *)

Definition newline : ascii := "010"%char.

(** The text of the capturing groups 1, 2, ... *)
Definition captures := list string.

(** What remains to be matched after a sub-expression: it receives the rest
    of the input and the groups recorded so far. *)
Definition cont := string -> captures -> option (list string).

Fixpoint set_cap (i : nat) (v : string) (caps : captures) : captures :=
  match caps, i with
  | [], _ => []
  | _ :: t, O => v :: t
  | c :: t, S i' => c :: set_cap i' v t
  end.

(** The bytes of [s] that were matched when [rest] is what is left of it. *)
Definition consumed (s rest : string) : string :=
  Bytes.take (String.length s - String.length rest) s.

(** Greedy iteration: one more round of [step] is preferred to leaving the
    loop, and a round that matches no byte does not restart the loop. *)
Fixpoint star_loop (step : string -> captures -> cont -> option (list string))
    (k : cont) (n : nat) (s : string) (caps : captures)
    : option (list string) :=
  match n with
  | O => k s caps
  | S n' =>
      match step s caps
              (fun s' caps' =>
                 if Nat.ltb (String.length s') (String.length s)
                 then star_loop step k n' s' caps' else None) with
      | Some res => Some res
      | None => k s caps
      end
  end.

(** Match [r] at the head of [s], then continue with [k]; alternatives are
    tried in priority order and the first that lets [k] succeed wins. *)
Fixpoint run (r : regex) (s : string) (caps : captures) (k : cont)
    {struct r} : option (list string) :=
  match r with
  | Any =>
      match s with
      | String c t => if Ascii.eqb c newline then None else k t caps
      | EmptyString => None
      end
  | Lit a =>
      match s with
      | String c t => if Ascii.eqb c a then k t caps else None
      | EmptyString => None
      end
  | NotLit a =>
      match s with
      | String c t => if Ascii.eqb c a then None else k t caps
      | EmptyString => None
      end
  | Cat r1 r2 => run r1 s caps (fun s' caps' => run r2 s' caps' k)
  | Star r1 => star_loop (run r1) k (String.length s) s caps
  | Cap i r1 =>
      run r1 s caps
        (fun s' caps' => k s' (set_cap (Nat.pred i) (consumed s s') caps'))
  end.

(** The highest group number of an expression. *)
Fixpoint NumSubexp (r : regex) : nat :=
  match r with
  | Any | Lit _ | NotLit _ => 0
  | Cat r1 r2 => Nat.max (NumSubexp r1) (NumSubexp r2)
  | Star r1 => NumSubexp r1
  | Cap i r1 => Nat.max i (NumSubexp r1)
  end.

(** The leftmost match: start positions are tried from the left.  The
    result is the matched text followed by the text of each group. *)
Fixpoint search (re : regex) (init : captures) (s : string)
    : option (list string) :=
  match run re s init (fun s' caps => Some (consumed s s' :: caps)) with
  | Some res => Some res
  | None =>
      match s with
      | EmptyString => None
      | String _ t => search re init t
      end
  end.

(** [re.FindStringSubmatch(s)]; [None] is the nil slice of "no match". *)
Definition FindStringSubmatch (re : regex) (s : string)
    : option (list string) :=
  search re (repeat "" (NumSubexp re)) s.

(** The language of an expression, independently of any matching order. *)
Inductive matches : regex -> string -> Prop :=
| MAny c : c <> newline -> matches Any (String c "")
| MLit a : matches (Lit a) (String a "")
| MNotLit a c : c <> a -> matches (NotLit a) (String c "")
| MCat r1 r2 s1 s2 :
    matches r1 s1 -> matches r2 s2 -> matches (Cat r1 r2) (s1 ++ s2)
| MStar0 r : matches (Star r) ""
| MStarS r s1 s2 :
    matches r s1 -> matches (Star r) s2 -> matches (Star r) (s1 ++ s2)
| MCap i r s : matches r s -> matches (Cap i r) s.

(** A matching step is sound for [r] when every success consumed a word
    of [r] and then satisfied the continuation, and complete when a word
    of [r] followed by an input the continuation accepts never fails. *)
Definition sound_for (r : regex)
    (step : string -> captures -> cont -> option (list string)) : Prop :=
  forall s caps k x, step s caps k = Some x ->
    exists s1 s2 caps', s = s1 ++ s2 /\ matches r s1 /\ k s2 caps' = Some x.

Definition complete_for (r : regex)
    (step : string -> captures -> cont -> option (list string)) : Prop :=
  forall s1, matches r s1 -> forall s2 caps (k : cont),
    (forall caps', k s2 caps' <> None) -> step (s1 ++ s2) caps k <> None.

End Regexp.

(* ------------------------------------------------------------------ *)
(** ** Go's [int] *)

Module GoInt.

Open Scope Z_scope.

Definition min_int : Z := - 2 ^ 63.
Definition max_int : Z := 2 ^ 63 - 1.

(** Two's-complement wrap-around of an arithmetic result. *)
Definition wrap (z : Z) : Z := (z + 2 ^ 63) mod 2 ^ 64 - 2 ^ 63.

(** [x + y]. *)
Definition add (x y : Z) : Z := wrap (x + y).

(** [x % y]: the remainder of the truncated division, with the sign of
    [x]; [None] is the run-time panic of a zero divisor. *)
Definition rem (x y : Z) : option Z :=
  if y =? 0 then None else Some (Z.rem x y).

End GoInt.

(* ------------------------------------------------------------------ *)
(** ** Package [collector] *)

Module Collector.

(** Error values.  [ErrNoNeedToMonitor] is the package's sentinel; every
    other error comes from the docker client. *)
Inductive error : Type :=
| ErrNoNeedToMonitor
| ClientError (msg : string).

(** Run-time panics the code can raise. *)
Inductive panic : Type :=
| DivideByZero        (* integer divide by zero *)
| SliceOutOfRange.    (* slice bounds out of range *)

(** A call either returns a value, returns an error, or panics. *)
Inductive outcome (A : Type) : Type :=
| Ok (a : A)
| Err (e : error)
| Panic (p : panic).

Arguments Ok {A} a.
Arguments Err {A} e.
Arguments Panic {A} p.

(** The fields of [docker.Config] and [docker.Container] the monitor
    reads. *)
Record DockerConfig : Type := mkConfig {
  Env : list string;
  Image : string
}.

Record Container : Type := mkContainer {
  ID : string;
  Config : DockerConfig
}.

(** The fields of [docker.StatsOptions] other than the channel, which is
    modelled by the samples the call delivers. *)
Record StatsOptions : Type := mkStatsOptions {
  StatsOptions_ID : string;
  StatsOptions_Stream : bool
}.

(** [s[:n]]; [None] is the slice-bounds panic of [n > len(s)]. *)
Definition slice_to (s : string) (n : nat) : option string :=
  if Nat.leb n (String.length s) then Some (Bytes.take n s) else None.

(** [var imageNameRegex], compiled from the pattern
    [.* \/ ( [^\/]* ) : .*] (its five parts are set apart by spaces here). *)
Definition imageNameRegex : Regexp.regex :=
  Regexp.Cat (Regexp.Star Regexp.Any)
    (Regexp.Cat (Regexp.Lit "/")
       (Regexp.Cat (Regexp.Cap 1 (Regexp.Star (Regexp.NotLit "/")))
          (Regexp.Cat (Regexp.Lit ":") (Regexp.Star Regexp.Any)))).

(** [func sanitizeForGraphite(s string) string] *)
Definition sanitizeForGraphite (s : string) : string :=
  Strings.Replace (Strings.Replace s "." "_" (-1)) "/" "_" (-1).

(** The [for _, e := range c.Config.Env] loop of [extractEnv]. *)
Fixpoint extractEnv_range (envPrefix : string) (env : list string) : string :=
  match env with
  | [] => ""
  | e :: rest =>
      if Strings.HasPrefix e envPrefix then Strings.TrimPrefix e envPrefix
      else extractEnv_range envPrefix rest
  end.

(** [func extractEnv(c *docker.Container, envVar string) string] *)
Definition extractEnv (c : Container) (envVar : string) : string :=
  let envPrefix := envVar ++ "=" in
  extractEnv_range envPrefix (Env (Config c)).

(** [func extractApp(c *docker.Container) (app string)] *)
Definition extractApp (c : Container) : string :=
  let app := extractEnv c "CHRONOS_JOB_NAME" in
  if negb (String.eqb app "") then app
  else
    let app := extractEnv c "MARATHON_APP_ID" in
    if negb (String.eqb app "") then Strings.TrimPrefix app "/"
    else
      match Regexp.FindStringSubmatch imageNameRegex (Image (Config c)) with
      | None => ""
      | Some [] => ""
      | Some (m0 :: _) => m0
      end.

Section Monitor.

(** [docker.Stats], one raw statistics snapshot; the monitor only copies
    it. *)
Variable DockerStats : Type.

(** The state of everything behind the docker client (the daemon, the
    network), threaded through its calls. *)
Variable World : Type.

(** [type MonitorDockerClient interface].  [InspectContainer] answers with
    a container or an error.  [StatsCall] is the method [Stats]: it blocks,
    delivers raw samples on the channel of its options, and returns its
    error value ([None] is [nil]); the channel is closed when it returns. *)
Record MonitorDockerClient : Type := mkClient {
  InspectContainer : string -> World -> (Container + error) * World;
  StatsCall : StatsOptions -> World
              -> (list DockerStats * option error) * World
}.

(** [type Monitor struct] *)
Record Monitor : Type := mkMonitor {
  client : MonitorDockerClient;
  id : string;
  app : string;
  task : string;
  interval : Z
}.

(** [type Stats struct], the labelled sample sent to the output channel. *)
Record Stats : Type := mkStats {
  App : string;
  Task : string;
  Stats_Stats : DockerStats
}.

(** [func NewMonitor(c MonitorDockerClient, id string, interval int)],
    returning a monitor or an error. *)
Definition NewMonitor (c : MonitorDockerClient) (id : string) (interval : Z)
    (w : World) : outcome Monitor * World :=
  match InspectContainer c id w with
  | (inr err, w') => (Err err, w')
  | (inl container, w') =>
      let app := sanitizeForGraphite (extractApp container) in
      if String.eqb app "" then (Err ErrNoNeedToMonitor, w')
      else
        match slice_to (ID container) 8 with
        | None => (Panic SliceOutOfRange, w')
        | Some id8 =>
            let task := sanitizeForGraphite id8 in
            (Ok {| client := c; id := ID container; app := app;
                   task := task; interval := interval |}, w')
        end
  end.

(** The state of the goroutine of [handle]: its counter [i], what it has
    sent to [ch] so far, and the panic that stopped it, if any. *)
Record worker_state : Type := mkWorker {
  loop_i : Z;
  sent : list Stats;
  fault : option panic
}.

(** One round of [for s := range in]. *)
Definition worker_step (m : Monitor) (st : worker_state) (s : DockerStats)
    : worker_state :=
  match fault st with
  | Some _ => st
  | None =>
      match GoInt.rem (loop_i st) (interval m) with
      | None => {| loop_i := loop_i st; sent := sent st;
                   fault := Some DivideByZero |}
      | Some r =>
          if negb (r =? 0)%Z then
            {| loop_i := GoInt.add (loop_i st) 1; sent := sent st;
               fault := None |}
          else
            {| loop_i := GoInt.add (loop_i st) 1;
               sent := sent st ++ [ {| App := app m; Task := task m;
                                       Stats_Stats := s |} ];
               fault := None |}
      end
  end.

(** The goroutine, run over the samples delivered on [in] until the channel
    is closed; every send to [ch] is taken by the consumer. *)
Definition worker (m : Monitor) (in_ : list DockerStats) : worker_state :=
  fold_left (worker_step m) in_
    {| loop_i := 0%Z; sent := []; fault := None |}.

(** What a call of [handle] amounts to: the samples sent to [ch] and either
    the returned error value or the panic that ended the process. *)
Record handle_result : Type := mkHandle {
  ch : list Stats;
  returned : option error + panic
}.

(** [func (m *Monitor) handle(ch chan<- Stats) error] *)
Definition handle (m : Monitor) (w : World) : handle_result * World :=
  let opts := {| StatsOptions_ID := id m; StatsOptions_Stream := true |} in
  let '((in_, err), w') := StatsCall (client m) opts w in
  let st := worker m in_ in
  ({| ch := sent st;
      returned := match fault st with
                  | Some p => inr p
                  | None => inl err
                  end |}, w').

End Monitor.

Arguments mkClient {DockerStats World}.
Arguments InspectContainer {DockerStats World}.
Arguments StatsCall {DockerStats World}.
Arguments mkMonitor {DockerStats World}.
Arguments client {DockerStats World}.
Arguments id {DockerStats World}.
Arguments app {DockerStats World}.
Arguments task {DockerStats World}.
Arguments interval {DockerStats World}.
Arguments mkStats {DockerStats}.
Arguments App {DockerStats}.
Arguments Task {DockerStats}.
Arguments Stats_Stats {DockerStats}.
Arguments NewMonitor {DockerStats World}.
Arguments mkWorker {DockerStats}.
Arguments loop_i {DockerStats}.
Arguments sent {DockerStats}.
Arguments fault {DockerStats}.
Arguments worker_step {DockerStats World}.
Arguments worker {DockerStats World}.
Arguments mkHandle {DockerStats}.
Arguments ch {DockerStats}.
Arguments returned {DockerStats}.
Arguments handle {DockerStats World}.

End Collector.

(* ------------------------------------------------------------------ *)
(** ** Vocabulary of the properties

    The notions the properties below are stated with; none of them is
    used by the embedding above. *)

Module Spec.

(** What sanitization does to one byte. *)
Definition sanitize_byte (c : ascii) : ascii :=
  if (Ascii.eqb c "." || Ascii.eqb c "/")%bool then "_"%char else c.

(** No entry of the environment list is a setting of [name]. *)
Definition env_absent (env : list string) (name : string) : Prop :=
  Forall (fun e => Strings.HasPrefix e (name ++ "=") = false) env.

(** The first setting of [name] in the environment list is [name=v]. *)
Definition env_first (env : list string) (name v : string) : Prop :=
  exists pre post,
    env = List.app pre ((name ++ "=" ++ v) :: post) /\ env_absent pre name.

(** [name] is set: present, with the non-empty value [v]. *)
Definition env_set (env : list string) (name v : string) : Prop :=
  v <> "" /\ env_first env name v.

(** [name] is not set: absent, or present with the empty value. *)
Definition env_unset (env : list string) (name : string) : Prop :=
  env_absent env name \/ env_first env name "".

(** An image reference of the shape "anything, then [/name:], then
    anything", where [name] has no [/]. *)
Definition image_matches (img : string) : Prop :=
  exists a b d, img = a ++ "/" ++ b ++ ":" ++ d /\ ~ Bytes.occurs "/" b.

(** [imageNameRegex] without its last part. *)
Definition image_head : Regexp.regex :=
  Regexp.Cat (Regexp.Star Regexp.Any)
    (Regexp.Cat (Regexp.Lit "/")
       (Regexp.Cat (Regexp.Cap 1 (Regexp.Star (Regexp.NotLit "/")))
          (Regexp.Lit ":"))).

(** The elements of [raw] at the indices [0, N, 2N, ...] that exist, in
    order. *)
Definition strided {A : Type} (N : nat) (raw : list A) : list A :=
  flat_map (fun j => match nth_error raw (j * N) with
                     | Some x => [x]
                     | None => []
                     end)
           (seq 0 (List.length raw)).

(** The elements of [raw] met when counting down from [d] and restarting
    the count at [N - 1] after each element taken. *)
Fixpoint stride_from {A : Type} (N d : nat) (raw : list A) : list A :=
  match raw with
  | [] => []
  | x :: t =>
      match d with
      | O => x :: stride_from N (N - 1) t
      | S d' => stride_from N d' t
      end
  end.

(** The labelled sample a monitor makes of a raw sample. *)
Definition label {DockerStats World : Type}
    (m : Collector.Monitor DockerStats World) (s : DockerStats)
    : Collector.Stats DockerStats :=
  Collector.mkStats (Collector.app m) (Collector.task m) s.

(** The options [handle] calls the client's [Stats] with. *)
Definition handle_opts {DockerStats World : Type}
    (m : Collector.Monitor DockerStats World) : Collector.StatsOptions :=
  Collector.mkStatsOptions (Collector.id m) true.

End Spec.

(** Test doubles of the docker client; the world they run in counts the
    calls made to the client. *)
Module Double.
Import Collector.

(** A client whose inspection answers [c] and whose statistics call
    delivers [raw] and then returns [err]. *)
Definition serving (c : Container) (raw : list nat) (err : option error)
    : MonitorDockerClient nat nat :=
  mkClient (fun _ w => (inl c, S w)) (fun _ w => ((raw, err), S w)).

(** A client whose inspection fails with [e]. *)
Definition failing (e : error) : MonitorDockerClient nat nat :=
  mkClient (fun _ w => (inr e, S w)) (fun _ w => (([], Some e), S w)).

Definition container (id image : string) (env : list string) : Container :=
  mkContainer id (mkConfig env image).

End Double.

(** Further notions, for the properties of the last part. *)
Module Notions.

(** An environment given as variables with their values, and the list of
    [name=value] entries docker reports for it. *)
Definition render_env (kvs : list (string * string)) : list string :=
  map (fun kv => fst kv ++ "=" ++ snd kv) kvs.

(** The value of the first variable called [name], or the empty string. *)
Definition lookup_env (name : string) (kvs : list (string * string))
    : string :=
  match find (fun kv => String.eqb (fst kv) name) kvs with
  | Some kv => snd kv
  | None => ""
  end.

(** A string with neither [.] nor [/]. *)
Definition clean (s : string) : Prop :=
  ~ Bytes.occurs "." s /\ ~ Bytes.occurs "/" s.

(** Somewhere in [img] a [/] is followed, at any distance, by a [:]. *)
Definition colon_after_slash (img : string) : Prop :=
  exists a rest, img = a ++ "/" ++ rest /\ Bytes.occurs ":" rest.

(** [sub] is [l] with some elements left out, order kept. *)
Inductive subseq {A : Type} : list A -> list A -> Prop :=
| subseq_nil : subseq [] []
| subseq_skip x sub l : subseq sub l -> subseq sub (x :: l)
| subseq_take x sub l : subseq sub l -> subseq (x :: sub) (x :: l).

End Notions.

(* ================================================================== *)
(** * Properties *)

(* ------------------------------------------------------------------ *)
(** ** Byte strings *)

Module BytesFacts.
Import Bytes.

Lemma app_assoc (a b c : string) : (a ++ b) ++ c = a ++ (b ++ c).
Proof. induction a as [|x t IH]; simpl; [reflexivity | now rewrite IH]. Qed.

Lemma length_app (a b : string) :
  String.length (a ++ b) = String.length a + String.length b.
Proof. induction a as [|x t IH]; simpl; [reflexivity | now rewrite IH]. Qed.

Lemma drop_app (a b : string) : drop (String.length a) (a ++ b) = b.
Proof. induction a as [|x t IH]; simpl; [now destruct b | exact IH]. Qed.

Lemma take_app (a b : string) : take (String.length a) (a ++ b) = a.
Proof. induction a as [|x t IH]; simpl; [now destruct b | now rewrite IH]. Qed.

Lemma take_all (s : string) : take (String.length s) s = s.
Proof. induction s as [|x t IH]; simpl; [reflexivity | now rewrite IH]. Qed.

Lemma take_length (n : nat) (s : string) :
  n <= String.length s -> String.length (take n s) = n.
Proof.
  revert s; induction n as [|n IH]; intros [|c t]; simpl; intros H;
    try reflexivity; try lia.
  rewrite IH; [reflexivity | lia].
Qed.

Lemma occurs_app (c : ascii) (a b : string) :
  occurs c (a ++ b) <-> occurs c a \/ occurs c b.
Proof. induction a as [|x t IH]; simpl; tauto. Qed.

End BytesFacts.

(* ------------------------------------------------------------------ *)
(** ** [strings] *)

Module StringsFacts.
Import Strings.

Lemma HasPrefix_app (p v : string) : HasPrefix (p ++ v) p = true.
Proof.
  induction p as [|c t IH]; simpl; [reflexivity|].
  now rewrite Ascii.eqb_refl, IH.
Qed.

Lemma TrimPrefix_app (p v : string) : TrimPrefix (p ++ v) p = v.
Proof. unfold TrimPrefix. now rewrite HasPrefix_app, BytesFacts.drop_app. Qed.

(** Replacing every occurrence of a one-byte pattern by one byte is a
    byte-wise map. *)
Lemma Replace_all_byte (a b : ascii) (s : string) :
  Replace s (String a "") (String b "") (-1) =
  map_byte (fun c => if Ascii.eqb c a then b else c) s.
Proof.
  unfold Replace; simpl.
  induction s as [|c t IH]; simpl; [reflexivity|].
  destruct (Ascii.eqb c a); simpl; now rewrite IH.
Qed.

Lemma map_byte_compose (f g : ascii -> ascii) (s : string) :
  map_byte g (map_byte f s) = map_byte (fun c => g (f c)) s.
Proof. induction s as [|c t IH]; simpl; [reflexivity | now rewrite IH]. Qed.

Lemma map_byte_ext (f g : ascii -> ascii) (s : string) :
  (forall c, f c = g c) -> map_byte f s = map_byte g s.
Proof.
  intros E; induction s as [|c t IH]; simpl; [reflexivity|].
  now rewrite E, IH.
Qed.

Lemma map_byte_avoids (f : ascii -> ascii) (x : ascii) (s : string) :
  (forall c, f c <> x) -> ~ Bytes.occurs x (map_byte f s).
Proof.
  intros Hf; induction s as [|c t IH]; simpl; [tauto|].
  intros [E | O]; [exact (Hf c E) | exact (IH O)].
Qed.

Lemma map_byte_empty (f : ascii -> ascii) (s : string) :
  map_byte f s = "" <-> s = "".
Proof. destruct s; simpl; split; congruence. Qed.

Lemma map_byte_length (f : ascii -> ascii) (s : string) :
  String.length (map_byte f s) = String.length s.
Proof. induction s as [|c t IH]; simpl; [reflexivity | now rewrite IH]. Qed.

End StringsFacts.

(* ------------------------------------------------------------------ *)
(** ** [sanitizeForGraphite] *)

Module SanitizeFacts.
Import Collector Spec.

Lemma sanitize_byte_idem (c : ascii) :
  sanitize_byte (sanitize_byte c) = sanitize_byte c.
Proof.
  unfold sanitize_byte.
  destruct (Ascii.eqb c "." || Ascii.eqb c "/")%bool eqn:E;
    [reflexivity | now rewrite E].
Qed.

Lemma sanitize_byte_not (c x : ascii) :
  x = "."%char \/ x = "/"%char -> sanitize_byte c <> x.
Proof.
  unfold sanitize_byte; intros Hx.
  destruct (Ascii.eqb c "." || Ascii.eqb c "/")%bool eqn:E.
  - destruct Hx; subst x; discriminate.
  - apply orb_false_iff in E as [E1 E2].
    apply Ascii.eqb_neq in E1, E2. destruct Hx; subst x; assumption.
Qed.

Lemma sanitize_map (s : string) :
  sanitizeForGraphite s = Strings.map_byte sanitize_byte s.
Proof.
  unfold sanitizeForGraphite.
  rewrite !StringsFacts.Replace_all_byte, StringsFacts.map_byte_compose.
  apply StringsFacts.map_byte_ext; intros c; unfold sanitize_byte.
  destruct (Ascii.eqb c ".") eqn:E1; simpl; [reflexivity|].
  destruct (Ascii.eqb c "/"); reflexivity.
Qed.

Lemma sanitize_empty (s : string) : sanitizeForGraphite s = "" <-> s = "".
Proof. rewrite sanitize_map. apply StringsFacts.map_byte_empty. Qed.

(** C4.  Sanitization is a total function that replaces each [.] and each
    [/] by [_] and leaves every other byte alone; its result contains
    neither [.] nor [/], and sanitizing twice is sanitizing once. *)
Theorem sanitize_total_idempotent (s : string) :
  sanitizeForGraphite s = Strings.map_byte sanitize_byte s /\
  ~ Bytes.occurs "." (sanitizeForGraphite s) /\
  ~ Bytes.occurs "/" (sanitizeForGraphite s) /\
  sanitizeForGraphite (sanitizeForGraphite s) = sanitizeForGraphite s.
Proof.
  repeat split.
  - apply sanitize_map.
  - rewrite sanitize_map. apply StringsFacts.map_byte_avoids.
    intros c; apply sanitize_byte_not; now left.
  - rewrite sanitize_map. apply StringsFacts.map_byte_avoids.
    intros c; apply sanitize_byte_not; now right.
  - rewrite !sanitize_map, StringsFacts.map_byte_compose.
    apply StringsFacts.map_byte_ext, sanitize_byte_idem.
Qed.

End SanitizeFacts.

(* ------------------------------------------------------------------ *)
(** ** [regexp]: the matcher against the language of an expression *)

Module RegexpFacts.
Import Regexp.

Lemma star_loop_sound (r : regex) step (n : nat) :
  sound_for r step ->
  sound_for (Star r) (fun s caps k => star_loop step k n s caps).
Proof.
  intros Hstep. induction n as [|n IH]; intros s caps k x; simpl.
  - intros K. exists "", s, caps. repeat split; [apply MStar0 | exact K].
  - destruct (step s caps _) as [res|] eqn:E.
    + intros [= ->].
      destruct (Hstep _ _ _ _ E) as (s1 & s2 & caps' & -> & M1 & K).
      destruct (Nat.ltb _ _); [|discriminate].
      destruct (IH _ _ _ _ K) as (t1 & t2 & caps'' & -> & M2 & K2).
      exists (s1 ++ t1), t2, caps''.
      rewrite BytesFacts.app_assoc. repeat split; [|exact K2].
      now apply MStarS.
    + intros K. exists "", s, caps. repeat split; [apply MStar0 | exact K].
Qed.

Lemma run_sound (r : regex) : sound_for r (run r).
Proof.
  induction r as [ | a | a | r1 IH1 r2 IH2 | r1 IH1 | i r1 IH1 ];
    intros s caps k x; simpl.
  - destruct s as [|c t]; [discriminate|].
    destruct (Ascii.eqb c newline) eqn:E; [discriminate|]; intros K.
    exists (String c ""), t, caps; repeat split; [|exact K].
    apply MAny. now apply Ascii.eqb_neq.
  - destruct s as [|c t]; [discriminate|].
    destruct (Ascii.eqb c a) eqn:E; [|discriminate]; intros K.
    apply Ascii.eqb_eq in E; subst c.
    exists (String a ""), t, caps; repeat split; [apply MLit | exact K].
  - destruct s as [|c t]; [discriminate|].
    destruct (Ascii.eqb c a) eqn:E; [discriminate|]; intros K.
    exists (String c ""), t, caps; repeat split; [|exact K].
    apply MNotLit. now apply Ascii.eqb_neq.
  - intros H.
    destruct (IH1 _ _ _ _ H) as (s1 & s2 & caps1 & -> & M1 & K1).
    destruct (IH2 _ _ _ _ K1) as (t1 & t2 & caps2 & -> & M2 & K2).
    exists (s1 ++ t1), t2, caps2.
    rewrite BytesFacts.app_assoc; repeat split; [|exact K2].
    now apply MCat.
  - intros H.
    exact (star_loop_sound r1 (run r1) (String.length s) IH1 _ _ _ _ H).
  - intros H.
    destruct (IH1 _ _ _ _ H) as (s1 & s2 & caps1 & -> & M1 & K1).
    exists s1, s2, (set_cap (Nat.pred i) (consumed (s1 ++ s2) s2) caps1).
    repeat split; [now apply MCap | exact K1].
Qed.

Lemma star_loop_complete (r : regex) step :
  complete_for r step ->
  forall s1, matches (Star r) s1 ->
  forall n s2 caps (k : cont),
    String.length (s1 ++ s2) <= n ->
    (forall caps', k s2 caps' <> None) ->
    star_loop step k n (s1 ++ s2) caps <> None.
Proof.
  intros Hstep s1 M.
  remember (Star r) as sr eqn:Esr.
  induction M as [ | | | | r0 | r0 sa sb Ma _ Mb IHb | ]; try discriminate;
    injection Esr as ->; intros n s2 caps k Hlen Hk.
  - simpl. destruct n as [|n]; simpl; [apply Hk|].
    destruct (step s2 caps _); [discriminate | apply Hk].
  - destruct (string_dec sa "") as [-> | Hne].
    + simpl. now apply IHb.
    + assert (Hpos : 0 < String.length sa) by (destruct sa; simpl; [congruence | lia]).
      rewrite BytesFacts.app_assoc in *.
      rewrite BytesFacts.length_app in Hlen.
      destruct n as [|n]; [lia|].
      cbn [star_loop].
      destruct (step _ caps _) as [res|] eqn:E; [discriminate|].
      exfalso. revert E.
      apply (Hstep _ Ma). intros caps'.
      assert (L : Nat.ltb (String.length (sb ++ s2))
                    (String.length (sa ++ sb ++ s2)) = true).
      { apply Nat.ltb_lt. rewrite (BytesFacts.length_app sa). lia. }
      rewrite L.
      apply IHb; [reflexivity | lia | exact Hk].
Qed.

Lemma run_complete (r : regex) : complete_for r (run r).
Proof.
  induction r as [ | a | a | r1 IH1 r2 IH2 | r1 IH1 | i r1 IH1 ];
    intros s1 M s2 caps k Hk; inversion M; subst; simpl.
  - destruct (Ascii.eqb c newline) eqn:E; [|apply Hk].
    apply Ascii.eqb_eq in E; contradiction.
  - rewrite Ascii.eqb_refl. apply Hk.
  - destruct (Ascii.eqb c a) eqn:E; [|apply Hk].
    apply Ascii.eqb_eq in E; contradiction.
  - rewrite BytesFacts.app_assoc.
    apply IH1; [assumption|]. intros caps'. now apply IH2.
  - destruct s2 as [|c t]; simpl; [apply Hk|].
    destruct (run r1 _ caps _); [discriminate | apply Hk].
  - apply (star_loop_complete r1 (run r1) IH1 (s0 ++ s3));
      [now apply MStarS | reflexivity | exact Hk].
  - apply IH1; [assumption|]. intros caps'. apply Hk.
Qed.

Lemma consumed_app (s1 s2 : string) : consumed (s1 ++ s2) s2 = s1.
Proof.
  unfold consumed. rewrite BytesFacts.length_app.
  replace (String.length s1 + String.length s2 - String.length s2)
    with (String.length s1) by lia.
  apply BytesFacts.take_app.
Qed.

Lemma consumed_all (s : string) : consumed s "" = s.
Proof.
  unfold consumed; simpl. rewrite Nat.sub_0_r. apply BytesFacts.take_all.
Qed.

(** A match found at the first start position is the answer. *)
Lemma search_here (re : regex) (init : captures) (s : string) x :
  run re s init (fun s' caps => Some (consumed s s' :: caps)) = Some x ->
  search re init s = Some x.
Proof. intros H. destruct s; simpl; now rewrite H. Qed.

(** Whatever [search] answers is a word of the expression inside the
    input, followed by the groups. *)
Lemma search_sound (re : regex) (init : captures) (s : string) ms :
  search re init s = Some ms ->
  exists pre m0 post caps,
    s = pre ++ m0 ++ post /\ matches re m0 /\ ms = m0 :: caps.
Proof.
  induction s as [|c t IH]; simpl.
  - destruct (run re "" init _) as [res|] eqn:E; [|discriminate].
    intros [= ->].
    destruct (run_sound re _ _ _ _ E) as (s1 & s2 & caps & Es & M & K).
    injection K as <-. rewrite Es, consumed_app.
    exists "", s1, s2, caps. now repeat split.
  - destruct (run re (String c t) init _) as [res|] eqn:E.
    + intros [= ->].
      destruct (run_sound re _ _ _ _ E) as (s1 & s2 & caps & Es & M & K).
      injection K as <-. rewrite Es, consumed_app.
      exists "", s1, s2, caps. now repeat split.
    + intros H. destruct (IH H) as (pre & m0 & post & caps & -> & M & ->).
      exists (String c pre), m0, post, caps. now repeat split.
Qed.

(** [search] finds a match whenever some part of the input is a word of
    the expression. *)
Lemma search_complete (re : regex) (init : captures) (pre m0 post : string) :
  matches re m0 -> search re init (pre ++ m0 ++ post) <> None.
Proof.
  intros M.
  assert (Here : forall s, s = m0 ++ post -> search re init s <> None).
  { intros s ->.
    assert (R : run re (m0 ++ post) init
                  (fun s' caps => Some (consumed (m0 ++ post) s' :: caps))
                <> None)
      by (apply (run_complete re m0 M); discriminate).
    destruct (run re (m0 ++ post) init _) as [x|] eqn:E; [|congruence].
    now rewrite (search_here _ _ _ _ E). }
  induction pre as [|c t IH]; simpl.
  - now apply Here.
  - destruct (run re (String c (t ++ m0 ++ post)) init _);
      [discriminate | exact IH].
Qed.

(** A greedy [.*] in front of a continuation that accepts the end of the
    input swallows a whole line-feed-free input. *)
Lemma star_any_greedy (k : cont) (n : nat) (s : string) (caps : captures) :
  String.length s <= n -> ~ Bytes.occurs newline s ->
  k "" caps <> None ->
  star_loop (run Any) k n s caps = k "" caps.
Proof.
  revert s; induction n as [|n IH]; intros s Hlen Hnl Hk.
  - destruct s; simpl in *; [reflexivity | lia].
  - destruct s as [|c t]; simpl; [reflexivity|].
    simpl in Hnl, Hlen.
    destruct (Ascii.eqb c newline) eqn:E.
    + apply Ascii.eqb_eq in E. tauto.
    + assert (L : Nat.ltb (String.length t) (S (String.length t)) = true)
        by (apply Nat.ltb_lt; lia).
      rewrite L, IH by (tauto || lia || assumption).
      destruct (k "" caps); [reflexivity | congruence].
Qed.

Lemma star_any_matches (s : string) :
  ~ Bytes.occurs newline s -> matches (Star Any) s.
Proof.
  induction s as [|c t IH]; simpl; intros H; [apply MStar0|].
  change (String c t) with (String c "" ++ t).
  apply MStarS; [apply MAny; intros ->; tauto | apply IH; tauto].
Qed.

Lemma star_notlit_matches (x : ascii) (s : string) :
  ~ Bytes.occurs x s -> matches (Star (NotLit x)) s.
Proof.
  induction s as [|c t IH]; simpl; intros H; [apply MStar0|].
  change (String c t) with (String c "" ++ t).
  apply MStarS; [apply MNotLit; intros ->; tauto | apply IH; tauto].
Qed.

Lemma star_notlit_inv (x : ascii) (s : string) :
  matches (Star (NotLit x)) s -> ~ Bytes.occurs x s.
Proof.
  intros M. remember (Star (NotLit x)) as r eqn:Er.
  induction M as [ | | | | r0 | r0 sa sb Ma _ Mb IHb | ]; try discriminate;
    injection Er as ->.
  - simpl; tauto.
  - inversion Ma; subst. simpl. intros [E | O]; [congruence|].
    now apply IHb.
Qed.

End RegexpFacts.

(* ------------------------------------------------------------------ *)
(** ** [extractEnv] *)

Module EnvFacts.
Import Collector Spec.

Lemma range_absent (env : list string) (name : string) :
  env_absent env name -> extractEnv_range (name ++ "=") env = "".
Proof.
  induction 1 as [|e rest He _ IH]; simpl; [reflexivity|].
  now rewrite He.
Qed.

Lemma range_first (env : list string) (name v : string) :
  env_first env name v -> extractEnv_range (name ++ "=") env = v.
Proof.
  intros (pre & post & -> & Habs).
  induction Habs as [|e rest He _ IH]; cbn [List.app extractEnv_range].
  - replace (name ++ "=" ++ v) with ((name ++ "=") ++ v)
      by apply BytesFacts.app_assoc.
    now rewrite StringsFacts.HasPrefix_app, StringsFacts.TrimPrefix_app.
  - now rewrite He.
Qed.

Lemma extractEnv_set (c : Container) (name v : string) :
  env_set (Env (Config c)) name v -> extractEnv c name = v.
Proof. intros [_ H]. now apply range_first. Qed.

Lemma extractEnv_unset (c : Container) (name : string) :
  env_unset (Env (Config c)) name -> extractEnv c name = "".
Proof. intros [H | H]; [now apply range_absent | now apply range_first]. Qed.

Lemma neqb_empty (v : string) : v <> "" -> negb (String.eqb v "") = true.
Proof.
  intros H. destruct (String.eqb v "") eqn:E; [|reflexivity].
  apply String.eqb_eq in E; contradiction.
Qed.

End EnvFacts.

(* ------------------------------------------------------------------ *)
(** ** [imageNameRegex] and [extractApp] *)

Module Identity.
Import Collector Spec Regexp.

(** Re-associate appends to the right. *)
Ltac norm_app :=
  repeat first [ rewrite !BytesFacts.app_assoc | progress simpl ].

Lemma image_head_run (s : string) (caps : captures) (k : cont) :
  run imageNameRegex s caps k =
  run image_head s caps (fun s' caps' => run (Star Any) s' caps' k).
Proof. reflexivity. Qed.

Lemma image_head_matches (a b : string) :
  ~ Bytes.occurs newline a -> ~ Bytes.occurs "/" b ->
  matches image_head (a ++ "/" ++ b ++ ":").
Proof.
  intros Ha Hb. unfold image_head.
  apply MCat; [now apply RegexpFacts.star_any_matches|].
  apply MCat; [apply MLit|].
  apply MCat; [|apply MLit].
  apply MCap. now apply RegexpFacts.star_notlit_matches.
Qed.

Lemma image_regex_matches (a b d : string) :
  ~ Bytes.occurs newline a -> ~ Bytes.occurs "/" b ->
  ~ Bytes.occurs newline d ->
  matches imageNameRegex (a ++ "/" ++ b ++ ":" ++ d).
Proof.
  intros Ha Hb Hd. unfold imageNameRegex.
  apply MCat; [now apply RegexpFacts.star_any_matches|].
  apply MCat; [apply MLit|].
  apply MCat; [apply MCap; now apply RegexpFacts.star_notlit_matches|].
  apply MCat; [apply MLit | now apply RegexpFacts.star_any_matches].
Qed.

Lemma image_regex_inv (m0 : string) :
  matches imageNameRegex m0 ->
  exists a b d, m0 = a ++ "/" ++ b ++ ":" ++ d /\ ~ Bytes.occurs "/" b.
Proof.
  unfold imageNameRegex; intros M.
  inversion M as [ | | | r1 r2 a s2 Ma M2 | | | ]; subst; clear M.
  inversion M2 as [ | | | r1 r2 sl s3 Ml M3 | | | ]; subst; clear M2.
  inversion Ml; subst; clear Ml.
  inversion M3 as [ | | | r1 r2 b s4 Mb M4 | | | ]; subst; clear M3.
  inversion Mb as [ | | | | | | i r b' Mb' ]; subst; clear Mb.
  inversion M4 as [ | | | r1 r2 sc d Mc Md | | | ]; subst; clear M4.
  inversion Mc; subst; clear Mc.
  exists a, b, d. split; [reflexivity|].
  now apply RegexpFacts.star_notlit_inv.
Qed.

(** Some part of [img] is a word of the pattern exactly when [img] has the
    shape [image_matches] describes. *)
Lemma image_matches_iff (img : string) :
  image_matches img <->
  exists pre m0 post, img = pre ++ m0 ++ post /\ matches imageNameRegex m0.
Proof.
  split.
  - intros (a & b & d & -> & Hb).
    exists a, ("/" ++ b ++ ":"), d. split.
    + now norm_app.
    + apply (image_regex_matches "" b ""); simpl; tauto.
  - intros (pre & m0 & post & -> & M).
    destruct (image_regex_inv _ M) as (a & b & d & -> & Hb).
    exists (pre ++ a), b, (d ++ post). split; [|exact Hb].
    now norm_app.
Qed.

Lemma find_none (img : string) :
  ~ image_matches img -> FindStringSubmatch imageNameRegex img = None.
Proof.
  intros H. unfold FindStringSubmatch.
  destruct (search _ _ img) as [ms|] eqn:E; [|reflexivity].
  exfalso; apply H, image_matches_iff.
  destruct (RegexpFacts.search_sound _ _ _ _ E)
    as (pre & m0 & post & caps & Es & M & _).
  now exists pre, m0, post.
Qed.

Lemma find_some (img : string) :
  image_matches img ->
  exists pre m0 post caps,
    img = pre ++ m0 ++ post /\ matches imageNameRegex m0 /\
    FindStringSubmatch imageNameRegex img = Some (m0 :: caps).
Proof.
  intros H. apply image_matches_iff in H as (pre & m & post & -> & M).
  unfold FindStringSubmatch.
  destruct (search _ _ (pre ++ m ++ post)) as [ms|] eqn:E.
  - destruct (RegexpFacts.search_sound _ _ _ _ E)
      as (pre' & m0 & post' & caps & Es & M0 & ->).
    now exists pre', m0, post', caps.
  - exfalso. revert E. now apply RegexpFacts.search_complete.
Qed.

(** On a reference without line feed the match is the whole reference. *)
Lemma find_whole (img : string) :
  image_matches img -> ~ Bytes.occurs newline img ->
  exists caps, FindStringSubmatch imageNameRegex img = Some (img :: caps).
Proof.
  intros (a & b & d & -> & Hb) Hnl.
  set (img := a ++ "/" ++ b ++ ":" ++ d) in *.
  set (kf := fun (s' : string) (caps : captures) =>
               Some (consumed img s' :: caps)).
  assert (Hk : forall s caps, ~ Bytes.occurs newline s ->
                 run (Star Any) s caps kf = Some (img :: caps)).
  { intros s caps Hs. simpl.
    rewrite RegexpFacts.star_any_greedy; try assumption; try apply le_n.
    - unfold kf. now rewrite RegexpFacts.consumed_all.
    - discriminate. }
  assert (Himg : img = (a ++ "/" ++ b ++ ":") ++ d).
  { unfold img. now norm_app. }
  assert (Ha : ~ Bytes.occurs newline a /\ ~ Bytes.occurs newline d).
  { rewrite Himg in Hnl. rewrite !BytesFacts.occurs_app in Hnl. tauto. }
  destruct (run imageNameRegex img (repeat "" (NumSubexp imageNameRegex)) kf)
    as [x|] eqn:E.
  - rewrite image_head_run in E.
    destruct (RegexpFacts.run_sound _ _ _ _ _ E)
      as (s1 & s2 & caps & Es & _ & K).
    rewrite Hk in K.
    + injection K as <-. exists caps.
      now apply RegexpFacts.search_here.
    + rewrite Es in Hnl. rewrite BytesFacts.occurs_app in Hnl. tauto.
  - exfalso. revert E. rewrite image_head_run, Himg.
    apply RegexpFacts.run_complete; [now apply image_head_matches|].
    intros caps'. cbv beta. rewrite Hk; [discriminate | tauto].
Qed.

Lemma extractApp_image (c : Container) :
  env_unset (Env (Config c)) "CHRONOS_JOB_NAME" ->
  env_unset (Env (Config c)) "MARATHON_APP_ID" ->
  extractApp c =
  match FindStringSubmatch imageNameRegex (Image (Config c)) with
  | Some (m0 :: _) => m0
  | _ => ""
  end.
Proof.
  intros H1 H2. unfold extractApp.
  rewrite (EnvFacts.extractEnv_unset _ _ H1).
  rewrite (EnvFacts.extractEnv_unset _ _ H2). simpl.
  destruct (FindStringSubmatch _ _) as [[|m0 ?]|]; reflexivity.
Qed.

Lemma extractApp_no_match (c : Container) :
  env_unset (Env (Config c)) "CHRONOS_JOB_NAME" ->
  env_unset (Env (Config c)) "MARATHON_APP_ID" ->
  ~ image_matches (Image (Config c)) -> extractApp c = "".
Proof.
  intros H1 H2 H. rewrite (extractApp_image c H1 H2).
  now rewrite (find_none _ H).
Qed.

(** Closes goals saying that a byte does not occur in a literal string. *)
Ltac no_occurrence := simpl; intuition discriminate.

(** C2.  With neither [CHRONOS_JOB_NAME] nor [MARATHON_APP_ID] set, the app
    is taken from the image reference: it is empty when no part of the
    reference has the shape "[/name:]", and otherwise it is the whole text
    matched by the pattern (a word of the pattern inside the reference, not
    its capturing group), which for a reference without line feed is the
    entire reference.  For [registry.example.com/myapp:1.2] the match is
    that reference and its sanitized form is
    [registry_example_com_myapp:1_2]. *)
Theorem app_from_image :
  (forall c : Container,
     env_unset (Env (Config c)) "CHRONOS_JOB_NAME" ->
     env_unset (Env (Config c)) "MARATHON_APP_ID" ->
     (~ image_matches (Image (Config c)) -> extractApp c = "") /\
     (image_matches (Image (Config c)) ->
      exists pre m0 post,
        Image (Config c) = pre ++ m0 ++ post /\
        matches imageNameRegex m0 /\ extractApp c = m0) /\
     (image_matches (Image (Config c)) ->
      ~ Bytes.occurs newline (Image (Config c)) ->
      extractApp c = Image (Config c))) /\
  (let c := Double.container "abcdef1234567890"
              "registry.example.com/myapp:1.2" [] in
   extractApp c = "registry.example.com/myapp:1.2" /\
   sanitizeForGraphite (extractApp c) = "registry_example_com_myapp:1_2").
Proof.
  split; [|split; reflexivity].
  intros c H1 H2. rewrite (extractApp_image c H1 H2). repeat split.
  - rewrite <- (extractApp_image c H1 H2). now apply extractApp_no_match.
  - intros H. destruct (find_some _ H) as (pre & m0 & post & caps & E & M & F).
    exists pre, m0, post. now rewrite F.
  - intros H Hnl. destruct (find_whole _ H Hnl) as (caps & F). now rewrite F.
Qed.

Lemma app_from_image_witness :
  let c := Double.container "0123456789abcdef" "library/redis:7" [] in
  env_unset (Env (Config c)) "CHRONOS_JOB_NAME" /\
  env_unset (Env (Config c)) "MARATHON_APP_ID" /\
  image_matches (Image (Config c)) /\
  extractApp c = "library/redis:7".
Proof.
  intros c.
  assert (U1 : env_unset (Env (Config c)) "CHRONOS_JOB_NAME")
    by (left; constructor).
  assert (U2 : env_unset (Env (Config c)) "MARATHON_APP_ID")
    by (left; constructor).
  assert (I : image_matches (Image (Config c))).
  { exists "library", "redis", "7". split; [reflexivity | no_occurrence]. }
  split; [exact U1 | split; [exact U2 | split; [exact I |]]].
  destruct app_from_image as [H _].
  destruct (H c U1 U2) as (_ & _ & H3).
  apply H3; [exact I | no_occurrence].
Defined.

(** C3.  When [CHRONOS_JOB_NAME] is set, the app is its sanitized value,
    whether or not [MARATHON_APP_ID] is set as well.  When only
    [MARATHON_APP_ID] is set, the app is its sanitized value without one
    leading [/]: a value [/v'] gives the sanitized [v'], whatever [v']
    starts with, and a value without leading [/] is taken whole.  So
    [MARATHON_APP_ID=/group/service] gives [group_service]. *)
Theorem app_precedence :
  (forall (c : Container) (v : string),
     env_set (Env (Config c)) "CHRONOS_JOB_NAME" v ->
     sanitizeForGraphite (extractApp c) = sanitizeForGraphite v) /\
  (forall (c : Container) (v : string),
     env_unset (Env (Config c)) "CHRONOS_JOB_NAME" ->
     env_set (Env (Config c)) "MARATHON_APP_ID" v ->
     extractApp c = Strings.TrimPrefix v "/" /\
     (forall v', v = "/" ++ v' ->
        sanitizeForGraphite (extractApp c) = sanitizeForGraphite v') /\
     (Strings.HasPrefix v "/" = false ->
        sanitizeForGraphite (extractApp c) = sanitizeForGraphite v)) /\
  sanitizeForGraphite
    (extractApp (Double.container "abcdef1234567890" "busybox"
                   ["PATH=/bin"; "MARATHON_APP_ID=/group/service"]))
    = "group_service" /\
  sanitizeForGraphite
    (extractApp (Double.container "abcdef1234567890" "busybox"
                   ["MARATHON_APP_ID=/group/service";
                    "CHRONOS_JOB_NAME=nightly.job"]))
    = "nightly_job".
Proof.
  split; [|split; [|split; reflexivity]].
  - intros c v Hset. unfold extractApp.
    rewrite (EnvFacts.extractEnv_set _ _ _ Hset).
    now rewrite (EnvFacts.neqb_empty _ (proj1 Hset)).
  - intros c v Hun Hset.
    assert (E : extractApp c = Strings.TrimPrefix v "/").
    { unfold extractApp.
      rewrite (EnvFacts.extractEnv_unset _ _ Hun),
              (EnvFacts.extractEnv_set _ _ _ Hset).
      now rewrite (EnvFacts.neqb_empty _ (proj1 Hset)). }
    split; [exact E | split].
    + intros v' ->. now rewrite E, (StringsFacts.TrimPrefix_app "/" v').
    + intros Hp. rewrite E. unfold Strings.TrimPrefix. now rewrite Hp.
Qed.

Lemma app_precedence_witness :
  let both := Double.container "abcdef1234567890" "busybox"
                ["CHRONOS_JOB_NAME=nightly.job"; "MARATHON_APP_ID=/web"] in
  let only := Double.container "abcdef1234567890" "busybox"
                ["HOME=/root"; "MARATHON_APP_ID=/group/service"] in
  (env_set (Env (Config both)) "CHRONOS_JOB_NAME" "nightly.job" /\
   env_set (Env (Config both)) "MARATHON_APP_ID" "/web" /\
   sanitizeForGraphite (extractApp both) = "nightly_job") /\
  (env_unset (Env (Config only)) "CHRONOS_JOB_NAME" /\
   env_set (Env (Config only)) "MARATHON_APP_ID" "/group/service" /\
   sanitizeForGraphite (extractApp only) = "group_service").
Proof.
  intros both only.
  assert (B1 : env_set (Env (Config both)) "CHRONOS_JOB_NAME" "nightly.job").
  { split; [discriminate|]. exists [], ["MARATHON_APP_ID=/web"].
    split; [reflexivity | constructor]. }
  assert (B2 : env_set (Env (Config both)) "MARATHON_APP_ID" "/web").
  { split; [discriminate|]. exists ["CHRONOS_JOB_NAME=nightly.job"], [].
    split; [reflexivity | repeat constructor]. }
  assert (O1 : env_unset (Env (Config only)) "CHRONOS_JOB_NAME").
  { left. repeat constructor. }
  assert (O2 : env_set (Env (Config only)) "MARATHON_APP_ID" "/group/service").
  { split; [discriminate|]. exists ["HOME=/root"], [].
    split; [reflexivity | repeat constructor]. }
  destruct app_precedence as (P1 & P2 & _).
  split.
  - split; [exact B1 | split; [exact B2 |]].
    exact (P1 both _ B1).
  - split; [exact O1 | split; [exact O2 |]].
    destruct (P2 only _ O1 O2) as (_ & S1 & _).
    exact (S1 "group/service" eq_refl).
Defined.

End Identity.

(* ------------------------------------------------------------------ *)
(** ** [NewMonitor] *)

Module Construction.
Import Collector Spec.

Section Outcomes.

Context {DockerStats World : Type}.
Implicit Types (c : MonitorDockerClient DockerStats World) (w : World).

(** The four ways a construction can end, by what inspection answered. *)
Lemma NewMonitor_inspect_failed c id n w e w' :
  InspectContainer c id w = (inr e, w') ->
  NewMonitor c id n w = (Err e, w').
Proof. unfold NewMonitor. now intros ->. Qed.

Lemma NewMonitor_declined c id n w container w' :
  InspectContainer c id w = (inl container, w') ->
  sanitizeForGraphite (extractApp container) = "" ->
  NewMonitor c id n w = (Err ErrNoNeedToMonitor, w').
Proof. unfold NewMonitor. now intros -> ->. Qed.

Lemma NewMonitor_short_id c id n w container w' :
  InspectContainer c id w = (inl container, w') ->
  sanitizeForGraphite (extractApp container) <> "" ->
  String.length (ID container) < 8 ->
  NewMonitor c id n w = (Panic SliceOutOfRange, w').
Proof.
  unfold NewMonitor, slice_to. intros -> Happ Hlen.
  destruct (String.eqb _ "") eqn:E.
  - apply String.eqb_eq in E; contradiction.
  - destruct (Nat.leb 8 _) eqn:L; [|reflexivity].
    apply Nat.leb_le in L; lia.
Qed.

Lemma NewMonitor_built c id n w container w' :
  InspectContainer c id w = (inl container, w') ->
  sanitizeForGraphite (extractApp container) <> "" ->
  8 <= String.length (ID container) ->
  NewMonitor c id n w =
  (Ok {| client := c; id := ID container;
         app := sanitizeForGraphite (extractApp container);
         task := sanitizeForGraphite (Bytes.take 8 (ID container));
         interval := n |}, w').
Proof.
  unfold NewMonitor, slice_to. intros -> Happ Hlen.
  destruct (String.eqb _ "") eqn:E.
  - apply String.eqb_eq in E; contradiction.
  - destruct (Nat.leb 8 _) eqn:L; [reflexivity|].
    apply Nat.leb_gt in L; lia.
Qed.

(** What a successful construction tells about the inspected container. *)
Lemma NewMonitor_ok_inv c id n w m w' :
  NewMonitor c id n w = (Ok m, w') ->
  exists container,
    InspectContainer c id w = (inl container, w') /\
    sanitizeForGraphite (extractApp container) <> "" /\
    8 <= String.length (ID container) /\
    m = {| client := c; id := ID container;
           app := sanitizeForGraphite (extractApp container);
           task := sanitizeForGraphite (Bytes.take 8 (ID container));
           interval := n |}.
Proof.
  intros H.
  destruct (InspectContainer c id w) as [[container | e] w1] eqn:I.
  - destruct (string_dec (sanitizeForGraphite (extractApp container)) "")
      as [E | E].
    + rewrite (NewMonitor_declined _ _ _ _ _ _ I E) in H. discriminate.
    + destruct (Nat.lt_ge_cases (String.length (ID container)) 8) as [L | L].
      * rewrite (NewMonitor_short_id _ _ _ _ _ _ I E L) in H. discriminate.
      * rewrite (NewMonitor_built _ _ _ _ _ _ I E L) in H.
        injection H as <- <-. now exists container.
  - rewrite (NewMonitor_inspect_failed _ _ _ _ _ _ I) in H. discriminate.
Qed.

(** C5.  Once inspection has answered with a container, construction
    returns the sentinel [ErrNoNeedToMonitor] (and so no monitor, and no
    other error) exactly when the sanitized app of that container is empty,
    which is exactly when the extracted app is empty; this is the case when
    neither variable is set and no part of the image reference has the
    shape of the pattern.  The only other way the sentinel comes out of a
    construction is a client that answers the inspection with it. *)
Theorem decline_iff_empty_app c id n w :
  (forall container w',
     InspectContainer c id w = (inl container, w') ->
     (NewMonitor c id n w = (Err ErrNoNeedToMonitor, w') <->
      sanitizeForGraphite (extractApp container) = "") /\
     (sanitizeForGraphite (extractApp container) = "" <->
      extractApp container = "") /\
     (env_unset (Env (Config container)) "CHRONOS_JOB_NAME" ->
      env_unset (Env (Config container)) "MARATHON_APP_ID" ->
      ~ image_matches (Image (Config container)) ->
      NewMonitor c id n w = (Err ErrNoNeedToMonitor, w'))) /\
  (fst (NewMonitor c id n w) = Err ErrNoNeedToMonitor <->
   (exists container,
      fst (InspectContainer c id w) = inl container /\
      sanitizeForGraphite (extractApp container) = "") \/
   fst (InspectContainer c id w) = inr ErrNoNeedToMonitor).
Proof.
  split.
  - intros container w' I. split; [|split].
    + split; [|now apply NewMonitor_declined].
      intros H.
      destruct (string_dec (sanitizeForGraphite (extractApp container)) "")
        as [E | E]; [exact E|].
      destruct (Nat.lt_ge_cases (String.length (ID container)) 8) as [L | L].
      * rewrite (NewMonitor_short_id _ _ _ _ _ _ I E L) in H. discriminate.
      * rewrite (NewMonitor_built _ _ _ _ _ _ I E L) in H. discriminate.
    + apply SanitizeFacts.sanitize_empty.
    + intros U1 U2 Hno. apply (NewMonitor_declined _ _ _ _ _ _ I).
      apply SanitizeFacts.sanitize_empty.
      now apply Identity.extractApp_no_match.
  - destruct (InspectContainer c id w) as [[container | e] w1] eqn:I; simpl.
    + destruct (string_dec (sanitizeForGraphite (extractApp container)) "")
        as [E | E].
      * rewrite (NewMonitor_declined _ _ _ _ _ _ I E). simpl.
        split; [|reflexivity]. intros _. left. now exists container.
      * split.
        -- intros H. exfalso.
           destruct (Nat.lt_ge_cases (String.length (ID container)) 8)
             as [L | L].
           ++ rewrite (NewMonitor_short_id _ _ _ _ _ _ I E L) in H.
              discriminate.
           ++ rewrite (NewMonitor_built _ _ _ _ _ _ I E L) in H.
              discriminate.
        -- intros [(c' & [= <-] & E') | H]; [contradiction | discriminate].
    + rewrite (NewMonitor_inspect_failed _ _ _ _ _ _ I). simpl.
      split.
      * intros [= ->]. now right.
      * intros [(c' & H & _) | [= ->]]; [discriminate | reflexivity].
Qed.

(** C8.  The task of a constructed monitor is the sanitized first eight
    bytes of the ID of the inspected container (which has at least eight),
    and is eight bytes long; the monitor keeps that ID.  The container ID
    [abcdef1234567890] gives the task [abcdef12]. *)
Theorem task_is_id_prefix :
  (forall c id n w m w',
     NewMonitor c id n w = (Ok m, w') ->
     exists container,
       InspectContainer c id w = (inl container, w') /\
       8 <= String.length (ID container) /\
       task m = sanitizeForGraphite (Bytes.take 8 (ID container)) /\
       String.length (task m) = 8 /\
       Collector.id m = ID container) /\
  (let c := Double.serving
              (Double.container "abcdef1234567890"
                 "registry.example.com/myapp:1.2" []) [] None in
   exists m, NewMonitor c "abcdef" 1%Z 0 = (Ok m, 1) /\ task m = "abcdef12").
Proof.
  split.
  - intros c id n w m w' H.
    destruct (NewMonitor_ok_inv _ _ _ _ _ _ H) as (container & I & _ & L & ->).
    exists container. cbn [task Collector.id].
    split; [exact I | split; [exact L | split; [reflexivity |]]].
    split; [|reflexivity].
    rewrite SanitizeFacts.sanitize_map, StringsFacts.map_byte_length.
    now apply BytesFacts.take_length.
  - eexists {| client := _; id := "abcdef1234567890";
               app := "registry_example_com_myapp:1_2";
               task := "abcdef12"; interval := 1%Z |}.
    split; vm_compute; reflexivity.
Qed.

(** C9.  A constructed monitor has a non-empty app; a container whose
    sanitized app is empty only ever yields the decline. *)
Theorem built_monitor_has_app :
  (forall c id n w m w',
     NewMonitor c id n w = (Ok m, w') -> app m <> "") /\
  (forall c id n w container w',
     InspectContainer c id w = (inl container, w') ->
     sanitizeForGraphite (extractApp container) = "" ->
     NewMonitor c id n w = (Err ErrNoNeedToMonitor, w')).
Proof.
  split.
  - intros c id n w m w' H.
    destruct (NewMonitor_ok_inv _ _ _ _ _ _ H) as (container & _ & E & _ & ->).
    exact E.
  - intros c id n w container w'. apply NewMonitor_declined.
Qed.

(** C10 (amended).  [NewMonitor] slices the ID only after the app check.
    For an inspected container it panics (slice bounds out of range)
    exactly when the sanitized app is non-empty and the ID has fewer than
    eight bytes; with a short ID and an empty app it returns the decline,
    and a failed inspection returns the client's error, whatever the
    length of any ID. *)
Theorem short_id_panics_after_app_check :
  (forall c id n w container w',
     InspectContainer c id w = (inl container, w') ->
     (NewMonitor c id n w = (Panic SliceOutOfRange, w') <->
      sanitizeForGraphite (extractApp container) <> "" /\
      String.length (ID container) < 8) /\
     (String.length (ID container) < 8 ->
      sanitizeForGraphite (extractApp container) = "" ->
      NewMonitor c id n w = (Err ErrNoNeedToMonitor, w'))) /\
  (forall c id n w e w',
     InspectContainer c id w = (inr e, w') ->
     NewMonitor c id n w = (Err e, w')).
Proof.
  split.
  - intros c id n w container w' I. split.
    + split.
      * intros H.
        destruct (string_dec (sanitizeForGraphite (extractApp container)) "")
          as [E | E].
        { rewrite (NewMonitor_declined _ _ _ _ _ _ I E) in H. discriminate. }
        split; [exact E|].
        destruct (Nat.lt_ge_cases (String.length (ID container)) 8)
          as [L | L]; [exact L|].
        rewrite (NewMonitor_built _ _ _ _ _ _ I E L) in H. discriminate.
      * intros [E L]. now apply NewMonitor_short_id with (container := container).
    + intros _ E. now apply NewMonitor_declined with (container := container).
  - intros c id n w e w'. apply NewMonitor_inspect_failed.
Qed.

End Outcomes.

Lemma busybox_no_match : ~ image_matches "busybox".
Proof.
  intros H. destruct (Identity.find_some _ H) as (? & ? & ? & ? & _ & _ & F).
  vm_compute in F. discriminate.
Qed.

Lemma decline_iff_empty_app_witness :
  let container := Double.container "0123456789ab" "busybox" ["PATH=/bin"] in
  let c := Double.serving container [] None in
  InspectContainer c "0123" 0 = (inl container, 1) /\
  env_unset (Env (Config container)) "CHRONOS_JOB_NAME" /\
  env_unset (Env (Config container)) "MARATHON_APP_ID" /\
  NewMonitor c "0123" 5%Z 0 = (Err ErrNoNeedToMonitor, 1).
Proof.
  intros container c.
  assert (U1 : env_unset (Env (Config container)) "CHRONOS_JOB_NAME")
    by (left; repeat constructor).
  assert (U2 : env_unset (Env (Config container)) "MARATHON_APP_ID")
    by (left; repeat constructor).
  split; [reflexivity | split; [exact U1 | split; [exact U2 |]]].
  destruct (decline_iff_empty_app c "0123" 5%Z 0) as [H _].
  destruct (H container 1 eq_refl) as (_ & _ & H3).
  exact (H3 U1 U2 busybox_no_match).
Defined.

Lemma task_is_id_prefix_witness :
  let container := Double.container "abcdef1234567890" "library/redis:7" [] in
  let c := Double.serving container [] None in
  let m := {| client := c; id := "abcdef1234567890";
              app := "library_redis:7"; task := "abcdef12";
              interval := 1%Z |} in
  NewMonitor c "abcdef" 1%Z 0 = (Ok m, 1) /\
  exists container',
    InspectContainer c "abcdef" 0 = (inl container', 1) /\
    8 <= String.length (ID container') /\
    task m = sanitizeForGraphite (Bytes.take 8 (ID container')) /\
    String.length (task m) = 8 /\
    Collector.id m = ID container'.
Proof.
  intros container c m.
  assert (B : NewMonitor c "abcdef" 1%Z 0 = (Ok m, 1))
    by (vm_compute; reflexivity).
  split; [exact B|].
  destruct (@task_is_id_prefix nat nat) as [H _].
  exact (H c "abcdef" 1%Z 0 m 1 B).
Defined.

Lemma built_monitor_has_app_witness :
  let container := Double.container "abcdef1234567890" "library/redis:7" [] in
  let c := Double.serving container [] None in
  let m := {| client := c; id := "abcdef1234567890";
              app := "library_redis:7"; task := "abcdef12";
              interval := 1%Z |} in
  NewMonitor c "abcdef" 1%Z 0 = (Ok m, 1) /\ app m <> "".
Proof.
  intros container c m.
  assert (B : NewMonitor c "abcdef" 1%Z 0 = (Ok m, 1))
    by (vm_compute; reflexivity).
  split; [exact B|].
  destruct (@built_monitor_has_app nat nat) as [H _].
  exact (H c "abcdef" 1%Z 0 m 1 B).
Defined.

(** C10 as stated fails: a container with the three-byte ID [abc] and no
    app is inspected, and construction returns the decline instead of
    panicking. *)
Lemma short_id_declines_counterexample :
  let container := Double.container "abc" "busybox" [] in
  let c := Double.serving container [] None in
  InspectContainer c "abc" 0 = (inl container, 1) /\
  String.length (ID container) < 8 /\
  NewMonitor c "abc" 1%Z 0 = (Err ErrNoNeedToMonitor, 1) /\
  fst (NewMonitor c "abc" 1%Z 0) <> Panic SliceOutOfRange.
Proof.
  intros container c.
  assert (D : NewMonitor c "abc" 1%Z 0 = (Err ErrNoNeedToMonitor, 1))
    by (vm_compute; reflexivity).
  split; [reflexivity | split; [simpl; lia | split; [exact D|]]].
  rewrite D. discriminate.
Qed.

Lemma short_id_panics_after_app_check_witness :
  let container := Double.container "abc" "library/redis:7" [] in
  let c := Double.serving container [] None in
  InspectContainer c "abc" 0 = (inl container, 1) /\
  sanitizeForGraphite (extractApp container) <> "" /\
  String.length (ID container) < 8 /\
  NewMonitor c "abc" 1%Z 0 = (Panic SliceOutOfRange, 1).
Proof.
  intros container c.
  assert (E : sanitizeForGraphite (extractApp container) <> "")
    by (vm_compute; discriminate).
  assert (L : String.length (ID container) < 8) by (simpl; lia).
  split; [reflexivity | split; [exact E | split; [exact L |]]].
  destruct (@short_id_panics_after_app_check nat nat) as [H _].
  destruct (H c "abc" 1%Z 0 container 1 eq_refl) as [[_ P] _].
  exact (P (conj E L)).
Defined.

End Construction.

(* ------------------------------------------------------------------ *)
(** ** [Monitor.handle] *)

Module Sampling.
Import Collector Spec.

Open Scope Z_scope.

Lemma wrap_small (z : Z) :
  GoInt.min_int <= z <= GoInt.max_int -> GoInt.wrap z = z.
Proof.
  unfold GoInt.min_int, GoInt.max_int, GoInt.wrap. intros H.
  rewrite Z.mod_small; lia.
Qed.

Lemma rem_nonzero (x y : Z) : y <> 0 -> GoInt.rem x y = Some (Z.rem x y).
Proof.
  unfold GoInt.rem. intros H.
  destruct (y =? 0) eqn:E; [|reflexivity]. apply Z.eqb_eq in E; contradiction.
Qed.

Lemma rem_zero_iff (x y : Z) :
  y <> 0 -> (Z.rem x y =? 0) = true <-> (Z.abs y | x).
Proof.
  intros H. rewrite Z.eqb_eq, (Z.rem_divide _ _ H).
  symmetry. apply Z.divide_abs_l.
Qed.

(** Counting down to the next multiple. *)
Lemma countdown_zero (M i : Z) (d : nat) :
  0 < M -> Z.of_nat d < M -> (M | i + Z.of_nat d) ->
  (M | i) <-> d = 0%nat.
Proof.
  intros HM Hd [k Hk]. split.
  - intros [j Hj]. destruct d as [|d]; [reflexivity|]. exfalso.
    assert (E : Z.of_nat (S d) = (k - j) * M) by lia.
    assert (0 < k - j) by nia. nia.
  - intros ->. exists k. simpl in Hk. lia.
Qed.

Section Worker.

Context {DockerStats World : Type}.
Variable m : Monitor DockerStats World.

Lemma step_forward (st : worker_state DockerStats) (s : DockerStats) :
  fault st = None -> interval m <> 0 -> (Z.abs (interval m) | loop_i st) ->
  worker_step m st s =
  {| loop_i := GoInt.add (loop_i st) 1;
     sent := (sent st ++ [label m s])%list; fault := None |}.
Proof.
  intros Hf HN Hdiv. unfold worker_step. rewrite Hf, (rem_nonzero _ _ HN).
  apply (rem_zero_iff _ _ HN) in Hdiv. now rewrite Hdiv.
Qed.

Lemma step_discard (st : worker_state DockerStats) (s : DockerStats) :
  fault st = None -> interval m <> 0 -> ~ (Z.abs (interval m) | loop_i st) ->
  worker_step m st s =
  {| loop_i := GoInt.add (loop_i st) 1; sent := sent st; fault := None |}.
Proof.
  intros Hf HN Hdiv. unfold worker_step. rewrite Hf, (rem_nonzero _ _ HN).
  destruct (Z.rem (loop_i st) (interval m) =? 0) eqn:E; [|reflexivity].
  apply (rem_zero_iff _ _ HN) in E. contradiction.
Qed.

Lemma step_divide_by_zero (st : worker_state DockerStats) (s : DockerStats) :
  fault st = None -> interval m = 0 ->
  worker_step m st s =
  {| loop_i := loop_i st; sent := sent st; fault := Some DivideByZero |}.
Proof. intros Hf HN. unfold worker_step. now rewrite Hf, HN. Qed.

(** A goroutine that has panicked receives nothing more. *)
Lemma faulted_stays (raw : list DockerStats) (st : worker_state DockerStats) p :
  fault st = Some p -> fold_left (worker_step m) raw st = st.
Proof.
  revert st; induction raw as [|x t IH]; intros st Hf; simpl; [reflexivity|].
  assert (E : worker_step m st x = st) by (unfold worker_step; now rewrite Hf).
  rewrite E. now apply IH.
Qed.

(** Every round adds one to the counter, forwarding or not. *)
Lemma step_counts (st : worker_state DockerStats) (s : DockerStats) :
  fault st = None -> interval m <> 0 ->
  loop_i (worker_step m st s) = GoInt.add (loop_i st) 1 /\
  fault (worker_step m st s) = None.
Proof.
  intros Hf HN. unfold worker_step. rewrite Hf, (rem_nonzero _ _ HN).
  destruct (negb _); simpl; split; reflexivity.
Qed.

Lemma no_fault (raw : list DockerStats) (st : worker_state DockerStats) :
  fault st = None -> interval m <> 0 ->
  fault (fold_left (worker_step m) raw st) = None.
Proof.
  revert st; induction raw as [|x t IH]; intros st Hf HN; simpl;
    [exact Hf|].
  apply IH; [|exact HN]. now apply step_counts.
Qed.

(** The loop from a counter [i] that is [d] rounds away from the next
    multiple of the stride. *)
Lemma worker_from (raw : list DockerStats) :
  interval m <> 0 ->
  forall (i : Z) (out : list (Stats DockerStats)) (d : nat),
    0 <= i -> i + Z.of_nat (List.length raw) <= GoInt.max_int ->
    Z.of_nat d < Z.abs (interval m) ->
    (Z.abs (interval m) | i + Z.of_nat d) ->
    fold_left (worker_step m) raw
      {| loop_i := i; sent := out; fault := None |} =
    {| loop_i := i + Z.of_nat (List.length raw);
       sent := (out ++ map (label m)
                  (stride_from (Z.to_nat (Z.abs (interval m))) d raw))%list;
       fault := None |}.
Proof.
  intros HN. set (M := Z.abs (interval m)).
  assert (HM : 0 < M) by (unfold M; lia).
  induction raw as [|x t IH]; intros i out d Hi Hlen Hd Hdiv.
  - simpl. now rewrite Z.add_0_r, app_nil_r.
  - cbn [fold_left List.length] in *. rewrite Nat2Z.inj_succ in Hlen.
    assert (Hadd : GoInt.add i 1 = i + 1).
    { apply wrap_small. unfold GoInt.min_int, GoInt.max_int in *. lia. }
    destruct d as [|d].
    + assert (D : (M | i))
        by (apply (countdown_zero M i 0 HM Hd Hdiv); reflexivity).
      rewrite (step_forward {| loop_i := i; sent := out; fault := None |}
                 x eq_refl HN D).
      cbn [loop_i sent].
      rewrite Hadd, (IH (i + 1) _ (Z.to_nat M - 1)%nat); try lia.
      * cbn [stride_from map]. rewrite <- app_assoc. simpl.
        f_equal. lia.
      * destruct D as [k Hk]. exists (k + 1). lia.
    + assert (D : ~ (M | i)).
      { intros Hc. apply (countdown_zero M i (S d) HM Hd Hdiv) in Hc.
        discriminate. }
      rewrite (step_discard {| loop_i := i; sent := out; fault := None |}
                 x eq_refl HN D).
      cbn [loop_i sent].
      rewrite Hadd, (IH (i + 1) _ d); try lia.
      * cbn [stride_from]. f_equal. lia.
      * destruct Hdiv as [k Hk]. exists k. lia.
Qed.

Lemma worker_nonzero (raw : list DockerStats) :
  interval m <> 0 ->
  Z.of_nat (List.length raw) <= GoInt.max_int ->
  worker m raw =
  {| loop_i := Z.of_nat (List.length raw);
     sent := map (label m)
               (stride_from (Z.to_nat (Z.abs (interval m))) 0 raw);
     fault := None |}.
Proof.
  intros HN Hlen. unfold worker.
  rewrite (worker_from raw HN 0 [] 0%nat); try lia; [reflexivity|].
  exists 0. reflexivity.
Qed.

Lemma worker_zero (raw : list DockerStats) :
  interval m = 0 -> raw <> [] ->
  worker m raw =
  {| loop_i := 0; sent := []; fault := Some DivideByZero |}.
Proof.
  intros HN Hraw. destruct raw as [|x t]; [contradiction|].
  unfold worker. cbn [fold_left].
  rewrite step_divide_by_zero by (reflexivity || assumption).
  now apply faulted_stays with (p := DivideByZero).
Qed.

End Worker.

Close Scope Z_scope.

(** [stride_from] started at a multiple picks the indices [0, N, 2N, ...]. *)
Lemma flat_map_nil {A B : Type} (f : A -> list B) (l : list A) :
  (forall x, f x = []) -> flat_map f l = [].
Proof.
  intros H; induction l as [|x t IH]; simpl; [reflexivity|].
  now rewrite H, IH.
Qed.

Lemma flat_map_ext_all {A B : Type} (f g : A -> list B) (l : list A) :
  (forall x, f x = g x) -> flat_map f l = flat_map g l.
Proof.
  intros H; induction l as [|x t IH]; simpl; [reflexivity|].
  now rewrite H, IH.
Qed.

Lemma flat_map_shift {B : Type} (f : nat -> list B) (a n : nat) :
  flat_map f (seq (S a) n) = flat_map (fun j => f (S j)) (seq a n).
Proof.
  rewrite <- seq_shift.
  induction (seq a n) as [|x t IH]; simpl; [reflexivity | now rewrite IH].
Qed.

Lemma stride_from_indices {A : Type} (N : nat) (raw : list A) :
  1 <= N ->
  forall d n, List.length raw <= n ->
    flat_map (fun j => match nth_error raw (d + j * N) with
                       | Some x => [x]
                       | None => []
                       end) (seq 0 n)
    = stride_from N d raw.
Proof.
  intros HN. induction raw as [|x t IH]; intros d n Hlen.
  - simpl. apply flat_map_nil. intros j. now destruct (d + j * N).
  - destruct d as [|d].
    + destruct n as [|n]; [simpl in Hlen; lia|].
      cbn [seq flat_map stride_from]. simpl (nth_error (x :: t) (0 + 0 * N)).
      cbn [List.app]. f_equal.
      rewrite flat_map_shift, <- (IH (N - 1) n) by (simpl in Hlen; lia).
      apply flat_map_ext_all. intros j.
      replace (0 + S j * N) with (S (N - 1 + j * N)) by lia.
      reflexivity.
    + cbn [stride_from]. rewrite <- (IH d n) by (simpl in Hlen; lia).
      apply flat_map_ext_all. intros j. reflexivity.
Qed.

Lemma stride_from_strided {A : Type} (N : nat) (raw : list A) :
  1 <= N -> stride_from N 0 raw = strided N raw.
Proof.
  intros HN. unfold strided.
  now rewrite <- (stride_from_indices N raw HN 0 (List.length raw)).
Qed.

Lemma stride_from_one {A : Type} (raw : list A) : stride_from 1 0 raw = raw.
Proof. induction raw as [|x t IH]; simpl; [reflexivity | now rewrite IH]. Qed.

(** [handle] is the one [Stats] call of the client, with the goroutine run
    over what that call delivers. *)
Lemma handle_unfold {DockerStats World : Type}
    (m : Monitor DockerStats World) (w : World) raw err w' :
  StatsCall (client m) (handle_opts m) w = ((raw, err), w') ->
  handle m w =
  ({| ch := sent (worker m raw);
      returned := match fault (worker m raw) with
                  | Some p => inr p
                  | None => inl err
                  end |}, w').
Proof. unfold handle, handle_opts. now intros ->. Qed.

(** C1.  With an interval [N > 0] and a raw sequence no longer than the
    largest [int], the samples sent to the output channel are the labelled
    raw samples at the indices [0, N, 2N, ...] that exist, in arrival
    order; the counter ends at the number of raw samples and the goroutine
    does not panic; with [N = 1] every sample is forwarded.  Each round
    adds one to the counter whether it forwards or discards.  Of the five
    samples [10 .. 14] an interval of 3 forwards [10] and [13]. *)
Theorem stride_sampling :
  (forall (DockerStats World : Type) (m : Monitor DockerStats World)
          (raw : list DockerStats),
     (0 < interval m)%Z ->
     (Z.of_nat (List.length raw) <= GoInt.max_int)%Z ->
     sent (worker m raw) =
       map (label m) (strided (Z.to_nat (interval m)) raw) /\
     loop_i (worker m raw) = Z.of_nat (List.length raw) /\
     fault (worker m raw) = None /\
     (interval m = 1%Z -> sent (worker m raw) = map (label m) raw) /\
     (forall w err w',
        StatsCall (client m) (handle_opts m) w = ((raw, err), w') ->
        ch (fst (handle m w)) =
          map (label m) (strided (Z.to_nat (interval m)) raw))) /\
  (forall (DockerStats World : Type) (m : Monitor DockerStats World)
          (st : worker_state DockerStats) (s : DockerStats),
     interval m <> 0%Z -> fault st = None ->
     loop_i (worker_step m st s) = GoInt.add (loop_i st) 1) /\
  (let m := mkMonitor (Double.failing ErrNoNeedToMonitor)
              "abcdef1234567890" "app" "abcdef12" 3%Z in
   sent (worker m [10; 11; 12; 13; 14]) =
     [mkStats "app" "abcdef12" 10; mkStats "app" "abcdef12" 13]).
Proof.
  split; [|split; [|reflexivity]].
  - intros DS W m raw HN Hlen.
    assert (Hnz : interval m <> 0%Z) by lia.
    assert (E : sent (worker m raw) =
                map (label m) (strided (Z.to_nat (interval m)) raw)).
    { rewrite (worker_nonzero m raw Hnz Hlen). cbn [sent].
      rewrite Z.abs_eq by lia.
      rewrite stride_from_strided; [reflexivity | lia]. }
    split; [exact E|].
    rewrite (worker_nonzero m raw Hnz Hlen) in *. cbn [sent loop_i fault] in *.
    split; [reflexivity | split; [reflexivity | split]].
    + intros H1. rewrite H1. simpl. now rewrite stride_from_one.
    + intros w err w' Hcall. rewrite (handle_unfold m w raw err w' Hcall).
      cbn [fst ch]. rewrite (worker_nonzero m raw Hnz Hlen). exact E.
  - intros DS W m st s Hnz Hf. now apply step_counts.
Qed.

Lemma stride_sampling_witness :
  let m := mkMonitor (Double.serving
                        (Double.container "abcdef1234567890" "busybox" [])
                        [20; 21; 22; 23; 24; 25; 26] None)
             "abcdef1234567890" "app" "abcdef12" 2%Z in
  (0 < interval m)%Z /\
  sent (worker m [20; 21; 22; 23; 24; 25; 26]) =
    map (label m) (strided 2 [20; 21; 22; 23; 24; 25; 26]).
Proof.
  intros m. split; [reflexivity|].
  destruct stride_sampling as [H _].
  destruct (H nat nat m [20; 21; 22; 23; 24; 25; 26]) as [E _].
  - reflexivity.
  - unfold GoInt.max_int. simpl. lia.
  - exact E.
Defined.

(** C6 as stated fails: an interval of 0 is accepted by the construction,
    and the first raw sample makes the sampling loop panic on its
    division. *)
Lemma zero_interval_counterexample :
  let container := Double.container "abcdef1234567890" "library/redis:7" [] in
  let c := Double.serving container [7] None in
  let m := {| client := c; id := "abcdef1234567890";
              app := "library_redis:7"; task := "abcdef12";
              interval := 0%Z |} in
  (interval m <= 0)%Z /\
  NewMonitor c "abcdef" 0%Z 0 = (Ok m, 1) /\
  handle m 1 = ({| ch := []; returned := inr DivideByZero |}, 2).
Proof.
  intros container c m.
  split; [simpl; lia | split; vm_compute; reflexivity].
Qed.

(** C6 (amended).  No policy is applied to the interval: a construction
    that succeeds stores the interval it was given and would have
    succeeded with any other.  With a negative interval the sampling loop
    does not panic and forwards the samples at the multiples of its
    absolute value.  With the interval 0 the loop panics on the division
    of its first round, before anything is sent, and [handle] does not
    return; only a stream without samples ends normally. *)
Theorem interval_is_not_validated :
  (forall (DockerStats World : Type) (c : MonitorDockerClient DockerStats World)
          id (n n' : Z) w m w',
     NewMonitor c id n w = (Ok m, w') ->
     interval m = n /\
     exists m', NewMonitor c id n' w = (Ok m', w') /\ interval m' = n') /\
  (forall (DockerStats World : Type) (m : Monitor DockerStats World)
          (raw : list DockerStats),
     (interval m < 0)%Z ->
     (Z.of_nat (List.length raw) <= GoInt.max_int)%Z ->
     fault (worker m raw) = None /\
     sent (worker m raw) =
       map (label m) (strided (Z.to_nat (- interval m)) raw)) /\
  (forall (DockerStats World : Type) (m : Monitor DockerStats World)
          (raw : list DockerStats),
     interval m = 0%Z ->
     (raw = [] -> fault (worker m raw) = None) /\
     (raw <> [] ->
      worker m raw =
        {| loop_i := 0%Z; sent := []; fault := Some DivideByZero |} /\
      forall w err w',
        StatsCall (client m) (handle_opts m) w = ((raw, err), w') ->
        handle m w = ({| ch := []; returned := inr DivideByZero |}, w'))).
Proof.
  split; [|split].
  - intros DS W c id n n' w m w' H.
    destruct (Construction.NewMonitor_ok_inv _ _ _ _ _ _ H)
      as (container & I & E & L & ->).
    split; [reflexivity|].
    eexists. split.
    + apply (Construction.NewMonitor_built c id n' w container w' I E L).
    + reflexivity.
  - intros DS W m raw HN Hlen.
    assert (Hnz : interval m <> 0%Z) by lia.
    rewrite (worker_nonzero m raw Hnz Hlen). cbn [sent fault].
    split; [reflexivity|].
    rewrite Z.abs_neq by lia.
    rewrite stride_from_strided; [reflexivity | lia].
  - intros DS W m raw HN. split.
    + now intros ->.
    + intros Hraw. rewrite (worker_zero m raw HN Hraw).
      split; [reflexivity|].
      intros w err w' Hcall. rewrite (handle_unfold m w raw err w' Hcall).
      now rewrite (worker_zero m raw HN Hraw).
Qed.

Lemma interval_is_not_validated_witness :
  let m := mkMonitor (Double.serving
                        (Double.container "abcdef1234567890" "busybox" [])
                        [30; 31; 32] None)
             "abcdef1234567890" "app" "abcdef12" (-2)%Z in
  (interval m < 0)%Z /\
  fault (worker m [30; 31; 32]) = None /\
  sent (worker m [30; 31; 32]) = [label m 30; label m 32].
Proof.
  intros m. split; [reflexivity|].
  destruct interval_is_not_validated as (_ & H & _).
  apply (H nat nat m [30; 31; 32]).
  - reflexivity.
  - unfold GoInt.max_int. simpl. lia.
Defined.

(** C7.  [handle] calls the client's [Stats] once, with the monitor's
    container ID and streaming on, and what it returns is the error value
    of that call, unchanged: [nil] when the stream ended normally, the
    client's error when it failed.  The goroutine contributes the forwarded
    samples only.  (An interval of 0 with a non-empty stream is the one
    case where the goroutine panics instead.) *)
Theorem handle_returns_stats_error
    (DockerStats World : Type) (m : Monitor DockerStats World)
    (w : World) (raw : list DockerStats) (err : option error) (w' : World) :
  StatsCall (client m)
    {| StatsOptions_ID := id m; StatsOptions_Stream := true |} w
    = ((raw, err), w') ->
  interval m <> 0%Z \/ raw = [] ->
  handle m w = ({| ch := sent (worker m raw); returned := inl err |}, w').
Proof.
  intros Hcall Hok. rewrite (handle_unfold m w raw err w' Hcall).
  assert (F : fault (worker m raw) = None).
  { destruct Hok as [Hnz | ->]; [|reflexivity].
    now apply no_fault. }
  now rewrite F.
Qed.

Lemma handle_returns_stats_error_witness :
  let c := Double.serving (Double.container "abcdef1234567890" "busybox" [])
             [40; 41; 42] (Some (ClientError "connection reset")) in
  let m := mkMonitor c "abcdef1234567890" "app" "abcdef12" 2%Z in
  StatsCall c (mkStatsOptions "abcdef1234567890" true) 1
    = (([40; 41; 42], Some (ClientError "connection reset")), 2) /\
  handle m 1 =
    ({| ch := sent (worker m [40; 41; 42]);
        returned := inl (Some (ClientError "connection reset")) |}, 2).
Proof.
  intros c m. split; [reflexivity|].
  apply (handle_returns_stats_error nat nat m 1 [40; 41; 42]
           (Some (ClientError "connection reset")) 2).
  - reflexivity.
  - left. simpl. lia.
Defined.

End Sampling.

(* ================================================================== *)
(** * Further properties *)

(* ------------------------------------------------------------------ *)
(** ** [extractEnv] as a lookup by variable name *)

Module Lookup.
Import Collector Spec Notions.

(** An entry [n'=v] starts with [n=] only when the two names are equal. *)
Lemma entry_prefix (n n' v : string) :
  ~ Bytes.occurs "=" n -> ~ Bytes.occurs "=" n' ->
  Strings.HasPrefix (n' ++ "=" ++ v) (n ++ "=") = String.eqb n' n.
Proof.
  revert n'; induction n as [|c t IH]; intros [|c' t'] Hn Hn';
    cbn [String.append Strings.HasPrefix String.eqb Bytes.occurs] in *.
  - now rewrite Ascii.eqb_refl.
  - destruct (Ascii.eqb c' "=") eqn:E; [|reflexivity].
    apply Ascii.eqb_eq in E. tauto.
  - destruct (Ascii.eqb "=" c) eqn:E; [|reflexivity].
    apply Ascii.eqb_eq in E. symmetry in E. tauto.
  - destruct (Ascii.eqb c' c); [|reflexivity].
    apply IH; tauto.
Qed.

Lemma range_lookup (name : string) (kvs : list (string * string)) :
  ~ Bytes.occurs "=" name ->
  Forall (fun kv => ~ Bytes.occurs "=" (fst kv)) kvs ->
  extractEnv_range (name ++ "=") (render_env kvs) = lookup_env name kvs.
Proof.
  intros Hn Hk. unfold lookup_env.
  induction Hk as [|[k v] rest Hkv _ IH]; [reflexivity|].
  cbn [render_env map extractEnv_range find fst snd] in *.
  rewrite (entry_prefix name k v Hn Hkv).
  destruct (String.eqb k name) eqn:E; [|exact IH].
  apply String.eqb_eq in E; subst k.
  replace (name ++ "=" ++ v) with ((name ++ "=") ++ v)
    by apply BytesFacts.app_assoc.
  apply StringsFacts.TrimPrefix_app.
Qed.

(** X1.  On an environment of [name=value] entries whose names have no
    [=], [extractEnv] is the lookup by exact name: it returns the value of
    the first variable with that very name (a variable whose name only
    begins with it is passed over, and a value may contain [=]), and the
    empty string when there is none. *)
Theorem extractEnv_is_lookup (id image name : string)
    (kvs : list (string * string)) :
  ~ Bytes.occurs "=" name ->
  Forall (fun kv => ~ Bytes.occurs "=" (fst kv)) kvs ->
  extractEnv (mkContainer id (mkConfig (render_env kvs) image)) name
  = lookup_env name kvs.
Proof. intros Hn Hk. unfold extractEnv. cbn [Config Env]. now apply range_lookup. Qed.

Lemma extractEnv_is_lookup_witness :
  let kvs := [("CHRONOS_JOB_NAME_OLD", "stale"); ("PATH", "/bin");
              ("CHRONOS_JOB_NAME", "a=b"); ("CHRONOS_JOB_NAME", "later")] in
  extractEnv (mkContainer "0123456789ab" (mkConfig (render_env kvs) "busybox"))
    "CHRONOS_JOB_NAME" = "a=b".
Proof.
  intros kvs.
  rewrite (extractEnv_is_lookup "0123456789ab" "busybox"
             "CHRONOS_JOB_NAME" kvs).
  - reflexivity.
  - Identity.no_occurrence.
  - repeat constructor; Identity.no_occurrence.
Defined.

End Lookup.

(* ------------------------------------------------------------------ *)
(** ** Which containers are declined *)

Module Decline.
Import Collector Spec Notions.

Lemma occurs_dec (x : ascii) (s : string) :
  {Bytes.occurs x s} + {~ Bytes.occurs x s}.
Proof.
  induction s as [|c t IH]; simpl; [right; tauto|].
  destruct (Ascii.ascii_dec c x); [left; tauto|].
  destruct IH; [left | right]; tauto.
Qed.

Lemma split_any (x : ascii) (s : string) :
  Bytes.occurs x s -> exists p d, s = p ++ String x d.
Proof.
  induction s as [|c t IH]; simpl; [tauto|]. intros [-> | H].
  - now exists "", t.
  - destruct (IH H) as (p & d & ->). now exists (String c p), d.
Qed.

Lemma split_last (x : ascii) (s : string) :
  Bytes.occurs x s ->
  exists p b, s = p ++ String x b /\ ~ Bytes.occurs x b.
Proof.
  induction s as [|c t IH]; simpl; [tauto|]. intros H.
  destruct (occurs_dec x t) as [Ht | Ht].
  - destruct (IH Ht) as (p & b & -> & Hb). now exists (String c p), b.
  - destruct H as [-> | H]; [|contradiction]. now exists "", t.
Qed.

(** The shape the pattern asks for is: some [/] with a [:] after it. *)
Lemma image_matches_colon (img : string) :
  image_matches img <-> colon_after_slash img.
Proof.
  split.
  - intros (a & b & d & -> & _). exists a, (b ++ ":" ++ d). split.
    + reflexivity.
    + apply BytesFacts.occurs_app. right. simpl. now left.
  - intros (a & rest & -> & H).
    destruct (split_any _ _ H) as (b0 & d & ->).
    destruct (occurs_dec "/" b0) as [Hb | Hb].
    + destruct (split_last _ _ Hb) as (p & b & -> & Hnb).
      exists (a ++ "/" ++ p), b, d. split; [|exact Hnb].
      now Identity.norm_app.
    + exists a, b0, d. split; [|exact Hb]. now Identity.norm_app.
Qed.

(** A word of the pattern is never empty. *)
Lemma extractApp_match_nonempty (c : Container) :
  env_unset (Env (Config c)) "CHRONOS_JOB_NAME" ->
  env_unset (Env (Config c)) "MARATHON_APP_ID" ->
  image_matches (Image (Config c)) -> extractApp c <> "".
Proof.
  intros U1 U2 H. rewrite (Identity.extractApp_image c U1 U2).
  destruct (Identity.find_some _ H) as (pre & m0 & post & caps & _ & M & ->).
  destruct (Identity.image_regex_inv _ M) as (a & b & d & -> & _).
  destruct a; discriminate.
Qed.

Section Outcomes.

Context {DockerStats World : Type}.
Implicit Types (c : MonitorDockerClient DockerStats World) (w : World).

Lemma NewMonitor_decline_iff c id n w container w' :
  InspectContainer c id w = (inl container, w') ->
  NewMonitor c id n w = (Err ErrNoNeedToMonitor, w') <->
  extractApp container = "".
Proof.
  intros I. rewrite <- SanitizeFacts.sanitize_empty. split.
  - intros H.
    destruct (string_dec (sanitizeForGraphite (extractApp container)) "")
      as [E | E]; [exact E|].
    destruct (Nat.lt_ge_cases (String.length (ID container)) 8) as [L | L].
    + rewrite (Construction.NewMonitor_short_id _ _ _ _ _ _ I E L) in H.
      discriminate.
    + rewrite (Construction.NewMonitor_built _ _ _ _ _ _ I E L) in H.
      discriminate.
  - now apply Construction.NewMonitor_declined.
Qed.

(** X2.  When a variable decides the app, the image reference plays no
    part in the decision to monitor: a container with [CHRONOS_JOB_NAME]
    set is never declined, and one with only [MARATHON_APP_ID] set is
    declined exactly when its value is the single byte [/]. *)
Theorem variable_decline c id n w container w' :
  InspectContainer c id w = (inl container, w') ->
  (forall v, env_set (Env (Config container)) "CHRONOS_JOB_NAME" v ->
     NewMonitor c id n w <> (Err ErrNoNeedToMonitor, w')) /\
  (forall v, env_unset (Env (Config container)) "CHRONOS_JOB_NAME" ->
     env_set (Env (Config container)) "MARATHON_APP_ID" v ->
     (NewMonitor c id n w = (Err ErrNoNeedToMonitor, w') <-> v = "/")).
Proof.
  intros I. split.
  - intros v Hset. rewrite (NewMonitor_decline_iff _ _ _ _ _ _ I).
    unfold extractApp. rewrite (EnvFacts.extractEnv_set _ _ _ Hset).
    rewrite (EnvFacts.neqb_empty _ (proj1 Hset)). exact (proj1 Hset).
  - intros v Hun Hset. rewrite (NewMonitor_decline_iff _ _ _ _ _ _ I).
    unfold extractApp.
    rewrite (EnvFacts.extractEnv_unset _ _ Hun),
            (EnvFacts.extractEnv_set _ _ _ Hset).
    rewrite (EnvFacts.neqb_empty _ (proj1 Hset)). cbn [String.eqb negb].
    destruct Hset as [Hv _]. unfold Strings.TrimPrefix.
    destruct v as [|x t]; [contradiction|].
    cbn [Strings.HasPrefix String.length Bytes.drop].
    destruct (Ascii.eqb x "/") eqn:E; cbn [andb].
    + apply Ascii.eqb_eq in E; subst x. split; [now intros -> | now intros [= ->]].
    + apply Ascii.eqb_neq in E. split; [discriminate | intros [= -> _]; contradiction].
Qed.

(** X3.  With neither variable set, a container is declined exactly when
    its image reference has no [:] after a [/]; so a reference without any
    [/], or without any [:], is always declined. *)
Theorem image_decline c id n w container w' :
  InspectContainer c id w = (inl container, w') ->
  env_unset (Env (Config container)) "CHRONOS_JOB_NAME" ->
  env_unset (Env (Config container)) "MARATHON_APP_ID" ->
  (NewMonitor c id n w = (Err ErrNoNeedToMonitor, w') <->
   ~ colon_after_slash (Image (Config container))) /\
  (~ Bytes.occurs "/" (Image (Config container)) ->
   NewMonitor c id n w = (Err ErrNoNeedToMonitor, w')) /\
  (~ Bytes.occurs ":" (Image (Config container)) ->
   NewMonitor c id n w = (Err ErrNoNeedToMonitor, w')).
Proof.
  intros I U1 U2.
  assert (Main : NewMonitor c id n w = (Err ErrNoNeedToMonitor, w') <->
                 ~ colon_after_slash (Image (Config container))).
  { rewrite (NewMonitor_decline_iff _ _ _ _ _ _ I), <- image_matches_colon.
    split.
    - intros E M. now apply (extractApp_match_nonempty container U1 U2 M).
    - now apply Identity.extractApp_no_match. }
  split; [exact Main | split]; intros H; apply Main;
    intros (a & rest & E & Hc); apply H; rewrite E.
  - apply BytesFacts.occurs_app. right. simpl. now left.
  - apply BytesFacts.occurs_app. right. simpl. now right.
Qed.

End Outcomes.

Lemma variable_decline_witness :
  let container := Double.container "0123456789ab" "library/redis:7"
                     ["PATH=/bin"; "MARATHON_APP_ID=/"] in
  let c := Double.serving container [] None in
  InspectContainer c "0123" 0 = (inl container, 1) /\
  env_unset (Env (Config container)) "CHRONOS_JOB_NAME" /\
  env_set (Env (Config container)) "MARATHON_APP_ID" "/" /\
  NewMonitor c "0123" 1%Z 0 = (Err ErrNoNeedToMonitor, 1).
Proof.
  intros container c.
  assert (U : env_unset (Env (Config container)) "CHRONOS_JOB_NAME")
    by (left; repeat constructor).
  assert (M : env_set (Env (Config container)) "MARATHON_APP_ID" "/").
  { split; [discriminate|]. exists ["PATH=/bin"], [].
    split; [reflexivity | repeat constructor]. }
  split; [reflexivity | split; [exact U | split; [exact M |]]].
  destruct (variable_decline c "0123" 1%Z 0 container 1 eq_refl) as [_ H].
  now apply (H "/" U M).
Defined.

Lemma image_decline_witness :
  let container := Double.container "0123456789ab" "localhost:5000/redis" [] in
  let c := Double.serving container [] None in
  InspectContainer c "0123" 0 = (inl container, 1) /\
  ~ colon_after_slash (Image (Config container)) /\
  NewMonitor c "0123" 1%Z 0 = (Err ErrNoNeedToMonitor, 1).
Proof.
  intros container c.
  assert (U1 : env_unset (Env (Config container)) "CHRONOS_JOB_NAME")
    by (left; constructor).
  assert (U2 : env_unset (Env (Config container)) "MARATHON_APP_ID")
    by (left; constructor).
  assert (N : ~ colon_after_slash (Image (Config container))).
  { intros H. apply image_matches_colon in H.
    destruct (Identity.find_some _ H) as (? & ? & ? & ? & _ & _ & F).
    vm_compute in F. discriminate. }
  split; [reflexivity | split; [exact N |]].
  destruct (image_decline c "0123" 1%Z 0 container 1 eq_refl U1 U2)
    as [H _].
  now apply H.
Defined.

End Decline.

(* ------------------------------------------------------------------ *)
(** ** [sanitizeForGraphite] on lengths, concatenations and clean strings *)

Module SanitizeAlgebra.
Import Collector Spec Notions.

Lemma map_byte_app (f : ascii -> ascii) (a b : string) :
  Strings.map_byte f (a ++ b) = Strings.map_byte f a ++ Strings.map_byte f b.
Proof. induction a as [|c t IH]; simpl; [reflexivity | now rewrite IH]. Qed.

Lemma sanitize_byte_fixed (c : ascii) :
  sanitize_byte c = c <-> c <> "."%char /\ c <> "/"%char.
Proof.
  unfold sanitize_byte.
  destruct (Ascii.eqb c ".") eqn:E1; [|destruct (Ascii.eqb c "/") eqn:E2];
    cbn [orb].
  - apply Ascii.eqb_eq in E1; subst c. split; [discriminate | tauto].
  - apply Ascii.eqb_eq in E2; subst c. split; [discriminate | tauto].
  - apply Ascii.eqb_neq in E1, E2. tauto.
Qed.

Lemma sanitize_clean (s : string) : clean (sanitizeForGraphite s).
Proof.
  rewrite SanitizeFacts.sanitize_map.
  split; apply StringsFacts.map_byte_avoids; intros c;
    apply SanitizeFacts.sanitize_byte_not; tauto.
Qed.

(** X4.  Sanitization keeps the length of a string, distributes over
    concatenation, and leaves unchanged exactly the strings that contain
    neither [.] nor [/]. *)
Theorem sanitize_algebra :
  (forall s, String.length (sanitizeForGraphite s) = String.length s) /\
  (forall a b, sanitizeForGraphite (a ++ b) =
               sanitizeForGraphite a ++ sanitizeForGraphite b) /\
  (forall s, sanitizeForGraphite s = s <-> clean s).
Proof.
  split; [|split].
  - intros s. rewrite SanitizeFacts.sanitize_map.
    apply StringsFacts.map_byte_length.
  - intros a b. rewrite !SanitizeFacts.sanitize_map. apply map_byte_app.
  - intros s. rewrite SanitizeFacts.sanitize_map. unfold clean.
    induction s as [|c t IH]; cbn [Strings.map_byte Bytes.occurs];
      [tauto|].
    split.
    + intros [= Hc Ht]. apply sanitize_byte_fixed in Hc. apply IH in Ht.
      split; intros [E | O]; subst; tauto.
    + intros [H1 H2].
      assert (Hc : sanitize_byte c = c)
        by (apply sanitize_byte_fixed; split; intros ->; tauto).
      assert (Ht : Strings.map_byte sanitize_byte t = t) by (apply IH; tauto).
      now rewrite Hc, Ht.
Qed.

End SanitizeAlgebra.

(* ------------------------------------------------------------------ *)
(** ** What the goroutine of [handle] forwards *)

Module Forwarding.
Import Collector Spec Notions.

Lemma subseq_In {A : Type} (sub l : list A) :
  subseq sub l -> forall x, In x sub -> In x l.
Proof.
  induction 1 as [| y sub l _ IH | y sub l _ IH]; intros x Hx; simpl in *.
  - exact Hx.
  - right. now apply IH.
  - destruct Hx as [-> | Hx]; [now left | right; now apply IH].
Qed.

Section Worker.

Context {DockerStats World : Type}.
Variable m : Monitor DockerStats World.

(** A round leaves what was sent as it is or adds the labelled sample. *)
Lemma step_sent (st : worker_state DockerStats) (s : DockerStats) :
  sent (worker_step m st s) = sent st \/
  sent (worker_step m st s) = (sent st ++ [label m s])%list.
Proof.
  unfold worker_step.
  destruct (fault st); [now left|].
  destruct (GoInt.rem _ _); [|now left].
  destruct (negb _); [now left | now right].
Qed.

Lemma fold_subseq (raw : list DockerStats) :
  forall st : worker_state DockerStats,
  exists sub,
    subseq sub raw /\
    sent (fold_left (worker_step m) raw st)
    = (sent st ++ map (label m) sub)%list.
Proof.
  induction raw as [|x t IH]; intros st; cbn [fold_left].
  - exists []. split; [constructor | now rewrite app_nil_r].
  - destruct (IH (worker_step m st x)) as (sub & Hs & E).
    destruct (step_sent st x) as [K | K]; rewrite K in E.
    + exists sub. split; [now constructor | exact E].
    + exists (x :: sub). split; [now constructor|].
      rewrite E, <- app_assoc. reflexivity.
Qed.

Lemma first_forwarded (x : DockerStats) (t : list DockerStats) :
  interval m <> 0%Z ->
  exists rest, sent (worker m (x :: t)) = label m x :: rest.
Proof.
  intros HN. unfold worker. cbn [fold_left].
  rewrite (Sampling.step_forward m
             {| loop_i := 0%Z; sent := []; fault := None |} x eq_refl HN)
    by (exists 0%Z; reflexivity).
  destruct (fold_subseq t
              {| loop_i := GoInt.add 0 1; sent := [] ++ [label m x];
                 fault := None |}) as (sub & _ & E).
  cbn [loop_i sent] in *. rewrite E. now exists (map (label m) sub).
Qed.

End Worker.

(** X5.  For every interval and every stream, however long, what the
    goroutine sends is the labelled form of a subsequence of the delivered
    samples: nothing is invented, duplicated or reordered, also when the
    counter overflows or the goroutine panics.  With a non-zero interval
    the first delivered sample is always forwarded. *)
Theorem forwarded_is_subsequence :
  (forall (DockerStats World : Type) (m : Monitor DockerStats World)
          (raw : list DockerStats),
     exists sub,
       subseq sub raw /\ sent (worker m raw) = map (label m) sub) /\
  (forall (DockerStats World : Type) (m : Monitor DockerStats World)
          (x : DockerStats) (t : list DockerStats),
     interval m <> 0%Z ->
     exists rest, sent (worker m (x :: t)) = label m x :: rest).
Proof.
  split.
  - intros DS W m raw.
    destruct (fold_subseq m raw {| loop_i := 0%Z; sent := []; fault := None |})
      as (sub & Hs & E).
    now exists sub.
  - intros DS W m x t. apply first_forwarded.
Qed.

Lemma forwarded_is_subsequence_witness :
  let m := mkMonitor (Double.failing ErrNoNeedToMonitor)
             "abcdef1234567890" "app" "abcdef12" (-4)%Z in
  interval m <> 0%Z /\
  exists rest, sent (worker m [50; 51; 52]) = label m 50 :: rest.
Proof.
  intros m.
  assert (N : interval m <> 0%Z) by discriminate.
  split; [exact N|].
  destruct forwarded_is_subsequence as [_ H].
  exact (H nat nat m 50 [51; 52] N).
Defined.

(** How many elements a countdown selection takes. *)
Lemma stride_from_length {A : Type} (N : nat) (raw : list A) :
  1 <= N ->
  forall d,
    (List.length raw <= d -> List.length (stride_from N d raw) = 0) /\
    (d < List.length raw ->
     1 <= List.length (stride_from N d raw) /\
     d + N * (List.length (stride_from N d raw) - 1) < List.length raw /\
     List.length raw <= d + N * List.length (stride_from N d raw)).
Proof.
  intros HN. induction raw as [|x t IH]; intros d.
  - simpl. split; [reflexivity | lia].
  - destruct d as [|d]; cbn [stride_from List.length].
    + split; [lia|]. intros _.
      destruct (IH (N - 1)) as [H0 H1].
      destruct (Nat.le_gt_cases (List.length t) (N - 1)) as [L | L].
      * rewrite (H0 L). lia.
      * destruct (H1 L) as (K1 & K2 & K3).
        set (k := List.length (stride_from N (N - 1) t)) in *.
        replace (S k - 1) with (S (k - 1)) by lia.
        nia.
    + destruct (IH d) as [H0 H1]. split.
      * intros L. apply H0. lia.
      * intros L. destruct H1 as (K1 & K2 & K3); [lia|].
        repeat split; lia.
Qed.

Lemma stride_from_count {A : Type} (N : nat) (raw : list A) :
  1 <= N ->
  List.length (stride_from N 0 raw) = (List.length raw + N - 1) / N.
Proof.
  intros HN.
  destruct (stride_from_length N raw HN 0) as [H0 H1].
  destruct raw as [|x t].
  - simpl. symmetry. apply Nat.div_small. lia.
  - destruct H1 as (K1 & K2 & K3); [simpl; lia|].
    set (k := List.length (stride_from N 0 (x :: t))) in *.
    set (len := List.length (x :: t)) in *.
    apply (Nat.div_unique _ _ _ (len + N - 1 - N * k)); nia.
Qed.

(** X6.  With a non-zero interval [N] and a stream no longer than the
    largest [int], the number of samples forwarded is the number of raw
    samples divided by [|N|], rounded up. *)
Theorem forwarded_count
    (DockerStats World : Type) (m : Monitor DockerStats World)
    (raw : list DockerStats) :
  interval m <> 0%Z ->
  (Z.of_nat (List.length raw) <= GoInt.max_int)%Z ->
  List.length (sent (worker m raw)) =
  (List.length raw + Z.to_nat (Z.abs (interval m)) - 1)
    / Z.to_nat (Z.abs (interval m)).
Proof.
  intros HN Hlen. rewrite (Sampling.worker_nonzero m raw HN Hlen).
  cbn [sent]. rewrite length_map. apply stride_from_count. lia.
Qed.

Lemma forwarded_count_witness :
  let m := mkMonitor (Double.failing ErrNoNeedToMonitor)
             "abcdef1234567890" "app" "abcdef12" 3%Z in
  interval m <> 0%Z /\
  List.length (sent (worker m [60; 61; 62; 63; 64; 65; 66])) = 3.
Proof.
  intros m.
  assert (N : interval m <> 0%Z) by discriminate.
  split; [exact N|].
  rewrite (forwarded_count nat nat m [60; 61; 62; 63; 64; 65; 66] N).
  - reflexivity.
  - unfold GoInt.max_int. simpl. lia.
Defined.

(** X7.  Forwarding composes over a stream cut at a multiple of the
    interval: when the length of the first part is a multiple of the
    non-zero interval, what is forwarded of the whole stream is what is
    forwarded of the first part followed by what is forwarded of the
    second. *)
Theorem forwarding_composes
    (DockerStats World : Type) (m : Monitor DockerStats World)
    (a b : list DockerStats) :
  interval m <> 0%Z ->
  (Z.of_nat (List.length (a ++ b)) <= GoInt.max_int)%Z ->
  (interval m | Z.of_nat (List.length a))%Z ->
  sent (worker m (a ++ b)) = (sent (worker m a) ++ sent (worker m b))%list.
Proof.
  intros HN Hlen Hdiv. rewrite length_app, Nat2Z.inj_add in Hlen.
  assert (La : (Z.of_nat (List.length a) <= GoInt.max_int)%Z) by lia.
  assert (Lb : (Z.of_nat (List.length b) <= GoInt.max_int)%Z) by lia.
  rewrite (Sampling.worker_nonzero m b HN Lb).
  unfold worker at 1. rewrite fold_left_app.
  fold (worker m a). rewrite (Sampling.worker_nonzero m a HN La).
  rewrite (Sampling.worker_from m b HN _ _ 0%nat); try lia.
  - reflexivity.
  - rewrite Z.add_0_r. now apply Z.divide_abs_l.
Qed.

Lemma forwarding_composes_witness :
  let m := mkMonitor (Double.failing ErrNoNeedToMonitor)
             "abcdef1234567890" "app" "abcdef12" 2%Z in
  interval m <> 0%Z /\
  (interval m | Z.of_nat (List.length [70; 71; 72; 73]))%Z /\
  sent (worker m ([70; 71; 72; 73] ++ [74; 75; 76])) =
  (sent (worker m [70; 71; 72; 73]) ++ sent (worker m [74; 75; 76]))%list.
Proof.
  intros m.
  assert (N : interval m <> 0%Z) by discriminate.
  assert (D : (interval m | Z.of_nat (List.length [70; 71; 72; 73]))%Z)
    by (exists 2%Z; reflexivity).
  split; [exact N | split; [exact D |]].
  apply (forwarding_composes nat nat m [70; 71; 72; 73] [74; 75; 76] N);
    [|exact D].
  unfold GoInt.max_int. simpl. lia.
Defined.

(** X8.  A monitor built by [NewMonitor] streams from the client it was
    built with, under the ID the inspection returned (not the ID it was
    asked for), with one [Stats] call; every sample it sends carries a
    non-empty app without [.] or [/], an eight-byte task without [.] or
    [/], and a raw sample that the call delivered. *)
Theorem built_monitor_stream
    (DockerStats World : Type) (c : MonitorDockerClient DockerStats World)
    (id : string) (n : Z) (w : World) (m : Monitor DockerStats World)
    (w1 : World) :
  NewMonitor c id n w = (Ok m, w1) ->
  exists container,
    InspectContainer c id w = (inl container, w1) /\
    forall raw err w2,
      StatsCall c (mkStatsOptions (ID container) true) w1
        = ((raw, err), w2) ->
      snd (handle m w1) = w2 /\
      Forall (fun x => App x <> "" /\ clean (App x) /\ clean (Task x) /\
                       String.length (Task x) = 8 /\
                       In (Stats_Stats x) raw)
             (ch (fst (handle m w1))).
Proof.
  intros H.
  destruct (Construction.NewMonitor_ok_inv _ _ _ _ _ _ H)
    as (container & I & E & L & ->).
  exists container. split; [exact I|].
  intros raw err w2 Hcall.
  set (m := {| client := c; id := ID container;
               app := sanitizeForGraphite (extractApp container);
               task := sanitizeForGraphite (Bytes.take 8 (ID container));
               interval := n |}) in *.
  rewrite (Sampling.handle_unfold m w1 raw err w2 Hcall). cbn [fst snd ch].
  split; [reflexivity|].
  destruct (fold_subseq m raw {| loop_i := 0%Z; sent := []; fault := None |})
    as (sub & Hs & Es).
  unfold worker. rewrite Es. cbn [sent List.app].
  apply Forall_forall. intros x Hx. apply in_map_iff in Hx as (s & <- & Hin).
  cbn [label App Task Stats_Stats app task m].
  split; [exact E|].
  split; [apply SanitizeAlgebra.sanitize_clean|].
  split; [apply SanitizeAlgebra.sanitize_clean|].
  split.
  - rewrite SanitizeFacts.sanitize_map, StringsFacts.map_byte_length.
    now apply BytesFacts.take_length.
  - exact (subseq_In _ _ Hs _ Hin).
Qed.

Lemma built_monitor_stream_witness :
  let container := Double.container "abcdef1234567890" "library/redis:7" [] in
  let c := Double.serving container [80; 81; 82] None in
  let m := {| client := c; id := "abcdef1234567890";
              app := "library_redis:7"; task := "abcdef12";
              interval := 2%Z |} in
  NewMonitor c "abcdef" 2%Z 0 = (Ok m, 1) /\
  exists container',
    InspectContainer c "abcdef" 0 = (inl container', 1) /\
    forall raw err w2,
      StatsCall c (mkStatsOptions (ID container') true) 1
        = ((raw, err), w2) ->
      snd (handle m 1) = w2 /\
      Forall (fun x => App x <> "" /\ clean (App x) /\ clean (Task x) /\
                       String.length (Task x) = 8 /\
                       In (Stats_Stats x) raw)
             (ch (fst (handle m 1))).
Proof.
  intros container c m.
  assert (B : NewMonitor c "abcdef" 2%Z 0 = (Ok m, 1))
    by (vm_compute; reflexivity).
  split; [exact B|].
  exact (built_monitor_stream nat nat c "abcdef" 2%Z 0 m 1 B).
Defined.

End Forwarding.
